(** * City suggestion engine: a shallow embedding of [cityRepository.go]

    The development follows the Go source function by function.  Go values
    are modelled as follows.

    - A Go [string] is its sequence of bytes, a [list byte].
    - A [rune] and an [int] are integers in [Z].
    - A [float64] and a [float32] are IEEE 754 binary floating-point numbers,
      taken from the Standard Library's [SpecFloat] at precisions 53 and 24.
    - A run-time panic (index or slice bounds out of range) is an explicit
      outcome of the [result] type; the functions of the repository that can
      panic return a [result].
    - What the Go standard library provides ([strconv.ParseFloat], the Unicode
      case table, the capacity the allocator gives a rune slice) is an
      interface, [GoRuntime], of which [refRuntime] is one instance. *)

From Stdlib Require Import ZArith Lia Bool Strings.String Strings.Ascii Strings.Byte SpecFloat.
From Stdlib Require Import Sorting.Sorted.
From stdpp Require Import base tactics option list sorting gmap strings.

Local Open Scope Z_scope.

(** ** Outcomes of a Go computation *)

Inductive panic : Type :=
  | IndexOutOfRange
  | SliceBoundsOutOfRange.

Inductive result (A : Type) : Type :=
  | Ok (a : A)
  | Panic (p : panic).
Arguments Ok {A} a.
Arguments Panic {A} p.

#[global] Instance result_ret : MRet result := fun A a => Ok a.

#[global] Instance result_bind : MBind result := fun A B k r =>
  match r with
  | Ok a => k a
  | Panic p => Panic p
  end.

(** ** Strings, bytes and runes *)

Definition gostring : Type := list byte.
Definition rune : Type := Z.

#[global] Instance byte_eq_dec : EqDecision byte := Byte.byte_eq_dec.

(** The value of a byte, and the conversion [byte(x)] of an integer, which
    keeps its low eight bits. *)
Definition b2z (b : byte) : Z := Z.of_N (Byte.to_N b).
Definition z2b (x : Z) : byte :=
  match Byte.of_N (Z.to_N (x mod 256)) with
  | Some b => b
  | None => x00
  end.

(** The bytes of a string literal of the development. *)
Definition str (s : string) : gostring := list_byte_of_string s.

(** Go's [s[i]] on a slice of strings or of runes: a panic out of range. *)
Definition index {A : Type} (l : list A) (i : Z) : result A :=
  if i <? 0 then Panic IndexOutOfRange
  else match l !! Z.to_nat i with
       | Some a => Ok a
       | None => Panic IndexOutOfRange
       end.

Module utf8.

Definition RuneError : rune := 0xFFFD.
Definition RuneSelf : Z := 0x80.
Definition MaxRune : rune := 0x10FFFF.
Definition surrogateMin : rune := 0xD800.
Definition surrogateMax : rune := 0xDFFF.

(** The size of the sequence a leading byte announces and the range its
    second byte must lie in (Go's [first] and [acceptRanges] tables);
    [None] for a byte that cannot start a multi-byte sequence. *)
Definition first (b0 : Z) : option (nat * Z * Z) :=
  if (0xC2 <=? b0) && (b0 <=? 0xDF) then Some (2%nat, 0x80, 0xBF)
  else if b0 =? 0xE0 then Some (3%nat, 0xA0, 0xBF)
  else if (0xE1 <=? b0) && (b0 <=? 0xEC) then Some (3%nat, 0x80, 0xBF)
  else if b0 =? 0xED then Some (3%nat, 0x80, 0x9F)
  else if (0xEE <=? b0) && (b0 <=? 0xEF) then Some (3%nat, 0x80, 0xBF)
  else if b0 =? 0xF0 then Some (4%nat, 0x90, 0xBF)
  else if (0xF1 <=? b0) && (b0 <=? 0xF3) then Some (4%nat, 0x80, 0xBF)
  else if b0 =? 0xF4 then Some (4%nat, 0x80, 0x8F)
  else None.

Definition continuation (b : Z) : bool := (0x80 <=? b) && (b <=? 0xBF).

(** [utf8.DecodeRuneInString]: the first rune of [s] and its width in bytes;
    an invalid or truncated sequence decodes as [RuneError] of width 1. *)
Definition DecodeRuneInString (s : gostring) : rune * nat :=
  match s with
  | [] => (RuneError, 0%nat)
  | c0 :: t0 =>
    let s0 := b2z c0 in
    if s0 <? RuneSelf then (s0, 1%nat)
    else
      match first s0 with
      | None => (RuneError, 1%nat)
      | Some (sz, lo, hi) =>
        if (length s <? sz)%nat then (RuneError, 1%nat)
        else
          match t0 with
          | [] => (RuneError, 1%nat)
          | c1 :: t1 =>
            let s1 := b2z c1 in
            if (s1 <? lo) || (hi <? s1) then (RuneError, 1%nat)
            else if (sz <=? 2)%nat then
              (Z.lor (Z.shiftl (Z.land s0 0x1F) 6) (Z.land s1 0x3F), 2%nat)
            else
              match t1 with
              | [] => (RuneError, 1%nat)
              | c2 :: t2 =>
                let s2 := b2z c2 in
                if negb (continuation s2) then (RuneError, 1%nat)
                else if (sz <=? 3)%nat then
                  (Z.lor (Z.lor (Z.shiftl (Z.land s0 0x0F) 12)
                                (Z.shiftl (Z.land s1 0x3F) 6))
                         (Z.land s2 0x3F), 3%nat)
                else
                  match t2 with
                  | [] => (RuneError, 1%nat)
                  | c3 :: _ =>
                    let s3 := b2z c3 in
                    if negb (continuation s3) then (RuneError, 1%nat)
                    else
                      (Z.lor (Z.lor (Z.lor (Z.shiftl (Z.land s0 0x07) 18)
                                           (Z.shiftl (Z.land s1 0x3F) 12))
                                    (Z.shiftl (Z.land s2 0x3F) 6))
                             (Z.land s3 0x3F), 4%nat)
                  end
              end
          end
      end
  end.

(** [utf8.AppendRune] on an empty buffer: the UTF-8 encoding of a rune, the
    encoding of [RuneError] for a surrogate or a value out of range. *)
Definition EncodeRune (r : rune) : gostring :=
  if (0 <=? r) && (r <=? 0x7F) then [z2b r]
  else if (0 <=? r) && (r <=? 0x7FF) then
    [z2b (Z.lor 0xC0 (Z.shiftr r 6)); z2b (Z.lor 0x80 (Z.land r 0x3F))]
  else
    let r3 :=
      if (r <? 0) || (MaxRune <? r) || ((surrogateMin <=? r) && (r <=? surrogateMax))
      then RuneError else r in
    if r3 <=? 0xFFFF then
      [z2b (Z.lor 0xE0 (Z.shiftr r3 12));
       z2b (Z.lor 0x80 (Z.land (Z.shiftr r3 6) 0x3F));
       z2b (Z.lor 0x80 (Z.land r3 0x3F))]
    else
      [z2b (Z.lor 0xF0 (Z.shiftr r3 18));
       z2b (Z.lor 0x80 (Z.land (Z.shiftr r3 12) 0x3F));
       z2b (Z.lor 0x80 (Z.land (Z.shiftr r3 6) 0x3F));
       z2b (Z.lor 0x80 (Z.land r3 0x3F))].

(** The runes a [for range] loop over the string visits, which are also the
    elements of [[]rune(s)].  The fuel is the number of bytes left: every
    step consumes at least one. *)
Fixpoint runes_fuel (fuel : nat) (s : gostring) : list rune :=
  match fuel with
  | O => []
  | S fuel' =>
    match s with
    | [] => []
    | _ :: _ =>
      let '(r, w) := DecodeRuneInString s in
      r :: runes_fuel fuel' (drop w s)
    end
  end.

Definition runes (s : gostring) : list rune := runes_fuel (length s) s.

(** [utf8.RuneCountInString]. *)
Fixpoint RuneCount_fuel (fuel : nat) (s : gostring) : Z :=
  match fuel with
  | O => 0
  | S fuel' =>
    match s with
    | [] => 0
    | _ :: _ => 1 + RuneCount_fuel fuel' (drop (snd (DecodeRuneInString s)) s)
    end
  end.

Definition RuneCountInString (s : gostring) : Z := RuneCount_fuel (length s) s.

(** [string(rs)] for a slice of runes. *)
Definition string_of_runes (rs : list rune) : gostring :=
  flat_map EncodeRune rs.

(** [utf8.ValidString]. *)
Fixpoint Valid_fuel (fuel : nat) (s : gostring) : bool :=
  match fuel with
  | O => match s with [] => true | _ => false end
  | S fuel' =>
    match s with
    | [] => true
    | s0 :: _ =>
      let '(r, w) := DecodeRuneInString s in
      if (r =? RuneError) && (w =? 1)%nat then false
      else Valid_fuel fuel' (drop w s)
    end
  end.

Definition ValidString (s : gostring) : bool := Valid_fuel (length s) s.

End utf8.

Arguments utf8.DecodeRuneInString : simpl never.

(** ** Floating-point numbers *)

Definition float64 : Type := spec_float.
Definition float32 : Type := spec_float.

Module f64.
Definition prec : Z := 53.
Definition emax : Z := 1024.
Definition zero : float64 := S754_zero false.
(** [float64(n)] for an integer [n]. *)
Definition of_int (n : Z) : float64 := binary_normalize prec emax n 0 false.
Definition one : float64 := of_int 1.
Definition sub (x y : float64) : float64 := SFsub prec emax x y.
Definition mul (x y : float64) : float64 := SFmul prec emax x y.
Definition div (x y : float64) : float64 := SFdiv prec emax x y.
(** [math.Abs]. *)
Definition abs (x : float64) : float64 := SFabs x.
Definition is_nan (x : float64) : bool :=
  match x with S754_nan => true | _ => false end.
End f64.

Module f32.
Definition prec : Z := 24.
Definition emax : Z := 128.
(** The conversion [float32(x)] of a [float64]: rounding to nearest, ties to
    even, at single precision; zeros, infinities and NaN are kept. *)
Definition of_f64 (x : float64) : float32 :=
  match x with
  | S754_finite s m e => binary_round prec emax s m e
  | _ => x
  end.
(** The comparison [x > y]. *)
Definition gtb (x y : float32) : bool := SFltb y x.
(** The comparisons [x >= y] and [x == y]. *)
Definition geb (x y : float32) : bool := SFleb y x.
Definition eqb (x y : float32) : bool := SFeqb x y.
Definition is_nan (x : float32) : bool :=
  match x with S754_nan => true | _ => false end.
End f32.

(** ** What the Go standard library and run time provide *)

(** The three outcomes of [strconv.ParseFloat(s, 64)]: a value and a nil
    error; an infinity of either sign with [ErrRange], for a well-formed
    number too large for a [float64]; zero with [ErrSyntax]. *)
Inductive parse_result : Type :=
  | Parsed (f : float64)
  | ErrRange (negative : bool)
  | ErrSyntax.

(** The first result of [strconv.ParseFloat]. *)
Definition parse_value (r : parse_result) : float64 :=
  match r with
  | Parsed f => f
  | ErrRange s => S754_infinity s
  | ErrSyntax => f64.zero
  end.

(** [err == nil] on the second result of [strconv.ParseFloat]. *)
Definition parse_ok (r : parse_result) : bool :=
  match r with
  | Parsed _ => true
  | _ => false
  end.

Class GoRuntime : Type := {
  (** [strconv.ParseFloat(s, 64)]. *)
  ParseFloat : gostring -> parse_result;
  (** The empty string is not a well-formed number. *)
  ParseFloat_empty : ParseFloat [] = ErrSyntax;
  (** The lower-case mapping of the Unicode tables, [unicode.To(LowerCase, r)],
      consulted for runes above [MaxASCII] only. *)
  lowerCaseTable : rune -> rune;
  (** The elements the allocator leaves, zeroed, between the length and the
      capacity of the rune slice [[]rune(s)] of a given length. *)
  runeSliceSpare : nat -> nat
}.

Module unicode.
Definition MaxASCII : rune := 0x7F.

(** [unicode.ToLower]. *)
Definition ToLower `{GoRuntime} (r : rune) : rune :=
  if r <=? MaxASCII then
    if (65 <=? r) && (r <=? 90) then r + (97 - 65) else r
  else lowerCaseTable r.
End unicode.

Module strings.

(** [strings.Map]: every rune of [s] replaced by its image, a rune with a
    negative image dropped. *)
Definition Map (mapping : rune -> rune) (s : gostring) : gostring :=
  flat_map (fun c => let r := mapping c in
                     if r <? 0 then [] else utf8.EncodeRune r)
           (utf8.runes s).

(** [strings.ToLower], with its path for strings of ASCII bytes only. *)
Definition ToLower `{GoRuntime} (s : gostring) : gostring :=
  let isASCII := forallb (fun c => b2z c <? utf8.RuneSelf) s in
  let hasUpper := existsb (fun c => (65 <=? b2z c) && (b2z c <=? 90)) s in
  if isASCII then
    if negb hasUpper then s
    else List.map (fun c => if (65 <=? b2z c) && (b2z c <=? 90)
                            then z2b (b2z c + (97 - 65)) else c) s
  else Map unicode.ToLower s.

(** [strings.HasPrefix]. *)
Fixpoint HasPrefix (s prefix : gostring) {struct prefix} : bool :=
  match prefix with
  | [] => true
  | p :: prefix' =>
    match s with
    | [] => false
    | c :: s' => bool_decide (c = p) && HasPrefix s' prefix'
    end
  end.

(** [strings.Index]: the byte index of the first instance of [substr] in
    [s], or -1. *)
Fixpoint Index (s substr : gostring) : Z :=
  if HasPrefix s substr then 0
  else
    match s with
    | [] => -1
    | _ :: s' =>
      let i := Index s' substr in
      if i <? 0 then -1 else i + 1
    end.

(** [strings.Contains]. *)
Definition Contains (s substr : gostring) : bool := 0 <=? Index s substr.

End strings.

(** [sort.SliceStable].  Go sorts a slice of at most 20 elements by the
    insertion sort below; a longer slice is cut in blocks of 20, each sorted
    this way and the blocks then merged in place, which yields the same slice
    whenever [less] is a strict weak order (a stable sorted rearrangement is
    unique, [stable_sorted_unique] below).  [sink less x before] moves [x] towards the front of the elements
    before it, given last to first, while it is less than its predecessor. *)
Module sort.
Section InsertionSort.
Context {A : Type} (less : A -> A -> bool).

Fixpoint sink (x : A) (before : list A) : list A :=
  match before with
  | [] => [x]
  | y :: before' =>
    if less x y then y :: sink x before' else x :: y :: before'
  end.

Definition insertionSort (data : list A) : list A :=
  rev (fold_left (fun sorted x => sink x sorted) data []).

Definition SliceStable (data : list A) : list A := insertionSort data.
End InsertionSort.
End sort.

(** ** The repository: [cityRepository.go] *)

Definition cityNameIndex : Z := 1.
Definition cityASCIINameIndex : Z := 2.
Definition cityAlernateNamesIndex : Z := 3.
Definition cityLatitudeIndex : Z := 4.
Definition cityLongitudeIndex : Z := 5.
Definition cityCountryCodeIndex : Z := 8.
Definition cityAdminLevel1CodeIndex : Z := 10.

Record cityQuery : Type := {
  name : gostring;
  latitude : gostring;
  longitude : gostring
}.

Record match_ : Type := {
  Name : gostring;
  Latitude : float64;
  Longitude : float64;
  Score : float32
}.

Record suggestions : Type := { Suggestions : list match_ }.

Record cityRepository : Type := { records : list (list gostring) }.

(** [len(x)]. *)
Definition len {A : Type} (x : list A) : Z := Z.of_nat (length x).

(** The slice expression [a[lo:hi]] on the rune slice [a], whose capacity
    exceeds its length by [spare] zeroed elements: Go checks the bounds
    against the capacity. *)
Definition slice (a : list rune) (spare : nat) (lo hi : Z) : result (list rune) :=
  if (lo <? 0) || (hi <? lo) || (len a + Z.of_nat spare <? hi)
  then Panic SliceBoundsOutOfRange
  else Ok (take (Z.to_nat (hi - lo)) (drop (Z.to_nat lo) (a ++ replicate spare 0))).

Section Repository.
Context `{GoRuntime}.

Definition fetchCityNameOf (record : list gostring) : result gostring :=
  if len record >? cityNameIndex then index record cityNameIndex
  else Ok (str "-").

Definition fetchCountryNameOf (record : list gostring) : result gostring :=
  if len record >? cityCountryCodeIndex then index record cityCountryCodeIndex
  else Ok (str "-").

Definition fetchFirstAdministrationLevelOf (record : list gostring) : result gostring :=
  if len record >? cityAdminLevel1CodeIndex then index record cityAdminLevel1CodeIndex
  else Ok (str "-").

Definition fetchLatitude (record : list gostring) : result float64 :=
  if len record >? cityLatitudeIndex then
    field ← index record cityLatitudeIndex;
    mret (parse_value (ParseFloat field))
  else Ok f64.zero.

Definition fetchLongitude (record : list gostring) : result float64 :=
  if len record >? cityLongitudeIndex then
    field ← index record cityLongitudeIndex;
    mret (parse_value (ParseFloat field))
  else Ok f64.zero.

(** The loop of [findAlternateNameWordStartIndex], by recursion on its
    variable [wordStartIndex] while it is positive. *)
Fixpoint wordStartLoop (alternateNames : list rune) (wordStartIndex : nat) : result Z :=
  match wordStartIndex with
  | O => Ok 0
  | S previous =>
    c ← index alternateNames (Z.of_nat wordStartIndex);
    if c =? 44 then Ok (Z.of_nat wordStartIndex + 1)
    else wordStartLoop alternateNames previous
  end.

Definition findAlternateNameWordStartIndex
    (alternateNames : list rune) (searchStartIndex : Z) : result Z :=
  if searchStartIndex >? 0 then wordStartLoop alternateNames (Z.to_nat searchStartIndex)
  else Ok searchStartIndex.

(** The loop of [findAlternateNameWordEndIndex]; [steps] bounds the
    iterations left, [alternateNamesLength - wordEndIndex] of them. *)
Fixpoint wordEndLoop (alternateNames : list rune) (steps : nat) (wordEndIndex : Z) : result Z :=
  match steps with
  | O => Ok wordEndIndex
  | S steps' =>
    if wordEndIndex <? len alternateNames then
      c ← index alternateNames wordEndIndex;
      if c =? 44 then Ok (wordEndIndex - 1)
      else wordEndLoop alternateNames steps' (wordEndIndex + 1)
    else Ok wordEndIndex
  end.

Definition findAlternateNameWordEndIndex
    (alternateNames : list rune) (searchStartIndex : Z) : result Z :=
  wordEndLoop alternateNames
    (Z.to_nat (len alternateNames - searchStartIndex)) searchStartIndex.

Definition findMatchingAlternateNameWholeWord
    (recordAlternateNames queryName : gostring) : result gostring :=
  let indexMatch := strings.Index (strings.ToLower recordAlternateNames) queryName in
  let alternateNames := utf8.runes recordAlternateNames in
  indexWordStart ← findAlternateNameWordStartIndex alternateNames indexMatch;
  indexWordEnd ← findAlternateNameWordEndIndex alternateNames
                    (indexMatch + utf8.RuneCountInString queryName);
  word ← slice alternateNames (runeSliceSpare (length alternateNames))
               indexWordStart (indexWordEnd + 1);
  mret (utf8.string_of_runes word).

Definition computeMatchingCharWeight (queryName matchedWord : gostring) : float64 :=
  f64.div (f64.of_int (utf8.RuneCountInString queryName))
          (f64.of_int (utf8.RuneCountInString matchedWord)).

Definition computeLatitudeScoreWeight
    (query : cityQuery) (record : list gostring) : result float64 :=
  let latitudeMaximumRange := f64.of_int 180 in
  let parsed := ParseFloat (latitude query) in
  let queryLatitude := parse_value parsed in
  if parse_ok parsed then
    recordLatitude ← fetchLatitude record;
    let distanceRatio :=
      f64.div (f64.abs (f64.sub queryLatitude recordLatitude)) latitudeMaximumRange in
    mret (f64.sub f64.one distanceRatio)
  else Ok f64.one.

Definition computeLongitudeScoreWeight
    (query : cityQuery) (record : list gostring) : result float64 :=
  let longitudeMaximumRange := f64.of_int 360 in
  let parsed := ParseFloat (longitude query) in
  let queryLongitude := parse_value parsed in
  if parse_ok parsed then
    recordLongitude ← fetchLongitude record;
    let distanceRatio :=
      f64.div (f64.abs (f64.sub queryLongitude recordLongitude)) longitudeMaximumRange in
    mret (f64.sub f64.one distanceRatio)
  else Ok f64.one.

Definition computeScoreFor
    (query : cityQuery) (matchedWord : gostring) (record : list gostring) : result float64 :=
  let matchingCharWeight := computeMatchingCharWeight (name query) matchedWord in
  latitudeWeight ← computeLatitudeScoreWeight query record;
  longitudeWeight ← computeLongitudeScoreWeight query record;
  mret (f64.mul (f64.mul matchingCharWeight latitudeWeight) longitudeWeight).

Definition matchQueryName
    (record : list gostring) (query : cityQuery) : result (bool * float32) :=
  cityName ← fetchCityNameOf record;
  if strings.Contains (strings.ToLower cityName) (name query) then
    score ← computeScoreFor query cityName record;
    mret (true, f32.of_f64 score)
  else
    asciiName ← index record cityASCIINameIndex;
    if strings.Contains (strings.ToLower asciiName) (name query) then
      score ← computeScoreFor query asciiName record;
      mret (true, f32.of_f64 score)
    else
      alternateNames ← index record cityAlernateNamesIndex;
      if strings.Contains (strings.ToLower alternateNames) (name query) then
        matchedWholeWord ←
          findMatchingAlternateNameWholeWord alternateNames (name query);
        score ← computeScoreFor query matchedWholeWord record;
        mret (true, f32.of_f64 score)
      else mret (false, f32.of_f64 f64.zero).

(** [fmt.Sprintf("%s, %s, %s", a, b, c)]. *)
Definition Sprintf3 (a b c : gostring) : gostring :=
  a ++ str ", " ++ b ++ str ", " ++ c.

(** The body of the loop of [findSuggestionsFor]: the suggestion a record
    adds to the result, if it matches. *)
Definition suggestionOf (query : cityQuery) (record : list gostring)
    : result (option match_) :=
  '(matched, score) ← matchQueryName record query;
  if matched : bool then
    cityName ← fetchCityNameOf record;
    admin ← fetchFirstAdministrationLevelOf record;
    country ← fetchCountryNameOf record;
    lat ← fetchLatitude record;
    lon ← fetchLongitude record;
    mret (Some {| Name := Sprintf3 cityName admin country;
                  Latitude := lat; Longitude := lon; Score := score |})
  else mret None.

(** The loop of [findSuggestionsFor] over the records left, with the
    suggestions appended so far. *)
Fixpoint scanRecords (rest : list (list gostring)) (query : cityQuery)
    (result_ : list match_) : result (list match_) :=
  match rest with
  | [] => Ok result_
  | record :: rest' =>
    found ← suggestionOf query record;
    scanRecords rest' query
      (match found with Some m => result_ ++ [m] | None => result_ end)
  end.

Definition findSuggestionsFor (repository : cityRepository) (query : cityQuery)
    : result suggestions :=
  if decide (name query = []) then Ok {| Suggestions := [] |}
  else
    let query := {| name := strings.ToLower (name query);
                    latitude := latitude query;
                    longitude := longitude query |} in
    found ← scanRecords (records repository) query [];
    mret {| Suggestions := found |}.

Definition FindRankedSuggestionsFor (repository : cityRepository) (query : cityQuery)
    : result suggestions :=
  s ← findSuggestionsFor repository query;
  mret {| Suggestions :=
            sort.SliceStable (fun i j => f32.gtb (Score i) (Score j)) (Suggestions s) |}.

End Repository.

(** ** The request handler: [app.go] *)

(** [url.Values], the parameters of a request: the values given for each
    key, in the order they were given. *)
Definition Values : Type := gmap string (list gostring).

(** [Values.Get]: the first value of the key, the empty string when the key
    has none. *)
Definition Get (v : Values) (key : string) : gostring :=
  match v !! key with
  | Some (first :: _) => first
  | _ => []
  end.

Definition parseCityQuery (queryValues : Values) : cityQuery :=
  {| name := Get queryValues "q";
     latitude := Get queryValues "latitude";
     longitude := Get queryValues "longitude" |}.

(** The handler of [suggestionsPath] in [Initialize], up to the rendering of
    its result: the query read from the parameters of the request, answered
    by the repository. *)
Definition suggestionsHandler `{GoRuntime} (repository : cityRepository)
    (queryValues : Values) : result suggestions :=
  let query := parseCityQuery queryValues in
  FindRankedSuggestionsFor repository query.


(** ** A reference instance of the run time

    [strconv.ParseFloat] on the decimal literals [[+-]digits[.digits][e[+-]digits]]
    and on the names of the special values, correctly rounded; hexadecimal
    literals and digit separators are outside this fragment.  The case
    table covers the Latin-1 supplement.  A rune slice of at most 32 elements
    lives in the 32-element buffer the compiler reserves for a conversion
    that does not escape. *)
Module strconv.

Definition isDigit (c : Z) : bool := (48 <=? c) && (c <=? 57).

Definition lowerASCII (c : Z) : Z :=
  if (65 <=? c) && (c <=? 90) then c + 32 else c.

Definition equalFold (s : list Z) (t : string) : bool :=
  bool_decide (List.map lowerASCII s = List.map b2z (str t)).

(** [special]: the infinities, with an optional sign, and NaN, without. *)
Definition special (s : list Z) : option float64 :=
  match s with
  | [] => None
  | c :: s' =>
    if (c =? 43) || (c =? 45) then
      if equalFold s' "inf" || equalFold s' "infinity"
      then Some (S754_infinity (c =? 45)) else None
    else if equalFold s "inf" || equalFold s "infinity" then Some (S754_infinity false)
    else if equalFold s "nan" then Some S754_nan
    else None
  end.

(** The digits of the mantissa: the digits read so far as an integer, the
    number of them after the point, whether a point and a digit were seen;
    the rest of the string when the digits end. *)
Fixpoint readDigits (s : list Z) (mantissa fraction : Z) (sawdot sawdigits : bool)
    : Z * Z * bool * list Z :=
  match s with
  | [] => (mantissa, fraction, sawdigits, [])
  | c :: s' =>
    if isDigit c then
      readDigits s' (mantissa * 10 + (c - 48))
                 (if sawdot then fraction + 1 else fraction) sawdot true
    else if (c =? 46) && negb sawdot then readDigits s' mantissa fraction true sawdigits
    else (mantissa, fraction, sawdigits, s)
  end.

(** The digits of the exponent, which stop counting past 10000. *)
Fixpoint readExponent (s : list Z) (e : Z) : option Z :=
  match s with
  | [] => Some e
  | c :: s' =>
    if isDigit c then readExponent s' (if e <? 10000 then e * 10 + (c - 48) else e)
    else None
  end.

(** The value [mantissa * 10 ^ exp10] rounded to the nearest [float64]. *)
Definition round (neg : bool) (mantissa exp10 : Z) : parse_result :=
  if mantissa =? 0 then Parsed (S754_zero neg)
  else
    let rounded :=
      if 0 <=? exp10 then
        binary_round f64.prec f64.emax neg (Z.to_pos (mantissa * 10 ^ exp10)) 0
      else
        let '(mz, ez, lz) :=
          SFdiv_core_binary f64.prec f64.emax mantissa 0 (10 ^ (- exp10)) 0 in
        binary_round_aux f64.prec f64.emax neg mz ez lz in
    match rounded with
    | S754_infinity s => ErrRange s
    | f => Parsed f
    end.

Definition ParseFloat64 (text : gostring) : parse_result :=
  let s := List.map b2z text in
  match special s with
  | Some f => Parsed f
  | None =>
    let '(neg, body) :=
      match s with
      | c :: s' => if c =? 43 then (false, s') else if c =? 45 then (true, s') else (false, s)
      | [] => (false, s)
      end in
    let '(mantissa, fraction, sawdigits, rest) := readDigits body 0 0 false false in
    if negb sawdigits then ErrSyntax
    else
      match rest with
      | [] => round neg mantissa (- fraction)
      | c :: rest' =>
        if (c =? 101) || (c =? 69) then
          let '(esign, digits) :=
            match rest' with
            | d :: rest'' =>
              if d =? 43 then (1, rest'') else if d =? 45 then (-1, rest'') else (1, rest')
            | [] => (1, rest')
            end in
          match digits with
          | [] => ErrSyntax
          | _ :: _ =>
            match readExponent digits 0 with
            | Some e => round neg mantissa (esign * e - fraction)
            | None => ErrSyntax
            end
          end
        else ErrSyntax
      end
  end.

Definition latin1Lower (r : rune) : rune :=
  if (0xC0 <=? r) && (r <=? 0xDE) && negb (r =? 0xD7) then r + 0x20 else r.

Definition stackBufferSpare (n : nat) : nat := (32 - n)%nat.

End strconv.

#[global] Program Instance refRuntime : GoRuntime := {|
  ParseFloat := strconv.ParseFloat64;
  lowerCaseTable := strconv.latin1Lower;
  runeSliceSpare := strconv.stackBufferSpare
|}.
Next Obligation. reflexivity. Qed.

(** * The vocabulary of the statements *)

(** The field of a record at a position, ["-"] when the row is too short. *)
Definition fieldOrDash (record : list gostring) (i : nat) : gostring :=
  default (str "-") (record !! i).

(** Strings of ASCII bytes. *)
Definition isASCII (s : gostring) : bool :=
  forallb (fun c => b2z c <? utf8.RuneSelf) s.

(** [strings.ToLower] on a byte of an ASCII string. *)
Definition lowerByte (c : byte) : byte :=
  if (65 <=? b2z c) && (b2z c <=? 90) then z2b (b2z c + (97 - 65)) else c.

(** A number that is not NaN as a point of the lexicographic order on
    triples: its class (infinite, finite or zero, with sign), then its
    exponent and its mantissa. *)
Definition key (x : spec_float) : Z * Z * Z :=
  match x with
  | S754_zero _ => (0, 0, 0)
  | S754_infinity false => (2, 0, 0)
  | S754_infinity true => (-2, 0, 0)
  | S754_nan => (0, 0, 0)
  | S754_finite false m e => (1, e, Z.pos m)
  | S754_finite true m e => (-1, - e, - Z.pos m)
  end.

Definition lt3 (a b : Z * Z * Z) : Prop :=
  a.1.1 < b.1.1 \/
  (a.1.1 = b.1.1 /\ (a.1.2 < b.1.2 \/ (a.1.2 = b.1.2 /\ a.2 < b.2))).

(** The elements before the one being sunk are held last to first, so a
    sorted prefix reads: no element is less than one that comes before it. *)
Definition sortedBefore {A : Type} (less : A -> A -> bool) (before : list A) : Prop :=
  StronglySorted (fun later earlier => less later earlier = false) before.

Section Vocabulary.
Context `{GoRuntime}.

(** The coordinate read from a field of a record, 0.0 when the row is too
    short. *)
Definition coordinateAt (record : list gostring) (i : nat) : float64 :=
  match record !! i with
  | Some field => parse_value (ParseFloat field)
  | None => f64.zero
  end.

(** The weight of one axis: the hint of the query as parsed, the coordinate
    of the record, the span of the axis. *)
Definition axisWeight (hint : parse_result) (coordinate : float64) (span : Z) : float64 :=
  match hint with
  | Parsed q =>
    f64.sub f64.one (f64.div (f64.abs (f64.sub q coordinate)) (f64.of_int span))
  | _ => f64.one
  end.

(** The score of a record for a matched word. *)
Definition scoreOf (query : cityQuery) (matchedWord : gostring)
    (record : list gostring) : float64 :=
  f64.mul
    (f64.mul (computeMatchingCharWeight (name query) matchedWord)
             (axisWeight (ParseFloat (latitude query)) (coordinateAt record 4) 180))
    (axisWeight (ParseFloat (longitude query)) (coordinateAt record 5) 360).

(** The suggestion built from a record once it matched with a score. *)
Definition suggestionFor (record : list gostring) (score : float32) : match_ :=
  {| Name := Sprintf3 (fieldOrDash record 1) (fieldOrDash record 10) (fieldOrDash record 8);
     Latitude := coordinateAt record 4;
     Longitude := coordinateAt record 5;
     Score := score |}.

(** Reading "the record's latitude does not parse" as: the field is absent
    or is not a well-formed number. *)
Definition unreadable (record : list gostring) (i : nat) : Prop :=
  match record !! i with
  | None => True
  | Some field => ParseFloat field = ErrSyntax
  end.

End Vocabulary.

(** A row of the gazetteer, with the eleven fields the engine may read. *)
Definition row (id cityName asciiName alternateNames lat lon country admin : string)
    : list gostring :=
  [str id; str cityName; str asciiName; str alternateNames; str lat; str lon;
   str "P"; str "PPL"; str country; str ""; str admin].

Definition parisRecord : list gostring :=
  row "2988507" "Paris" "Paris" "" "48.8566" "2.3522" "FR" "A8".

Definition londonStore : cityRepository :=
  {| records :=
       [ row "2643734" "Londonderry" "Londonderry" "" "55.0" "-7.3" "GB" "NIR";
         row "6058560" "London" "London" "" "42.98" "-81.23" "CA" "08";
         row "4361094" "Londontowne" "Londontowne" "" "38.93" "-76.55" "US" "MD" ] |}.

(** A store in which the latitude of the second record reads as NaN. *)
Definition nanStore : cityRepository :=
  {| records :=
       [ row "1" "Ab" "Ab" "" "0" "0" "AA" "01";
         row "2" "A" "A" "" "NaN" "0" "AA" "02";
         row "3" "A" "A" "" "0" "0" "AA" "03" ] |}.

(** The columns of a row the engine reads. *)
Definition readColumns : list nat := [1; 2; 3; 4; 5; 8; 10]%nat.

(** Two rows with the same fields, present or absent, in the columns the
    engine reads. *)
Definition sameReadColumns (record record' : list gostring) : Prop :=
  Forall (fun i => record !! i = record' !! i) readColumns.

(** A number that is neither NaN nor an infinity. *)
Definition isFinite (x : float64) : bool :=
  match x with
  | S754_zero _ | S754_finite _ _ _ => true
  | S754_infinity _ | S754_nan => false
  end.

Section MatchVocabulary.
Context `{GoRuntime}.

(** One of the three name fields of the record contains the query name. *)
Definition recordMatches (queryName : gostring) (record : list gostring) : bool :=
  strings.Contains (strings.ToLower (fieldOrDash record 1)) queryName
  || match record !! 2%nat with
     | Some asciiName => strings.Contains (strings.ToLower asciiName) queryName
     | None => false
     end
  || match record !! 3%nat with
     | Some alternateNames => strings.Contains (strings.ToLower alternateNames) queryName
     | None => false
     end.

(** The query as [findSuggestionsFor] hands it to [matchQueryName]. *)
Definition lowered (query : cityQuery) : cityQuery :=
  {| name := strings.ToLower (name query);
     latitude := latitude query;
     longitude := longitude query |}.

End MatchVocabulary.

(** The record of Paris with other values in columns the engine does not
    read. *)
Definition parisRecordRenumbered : list gostring :=
  [str "7"; str "Paris"; str "Paris"; str ""; str "48.8566"; str "2.3522";
   str "A"; str "ADM1"; str "FR"; str "75"; str "A8"; str "2138551"].

(** The three Londons and Paris. *)
Definition mixedStore : cityRepository :=
  {| records := records londonStore ++ [parisRecord] |}.

(** * Properties *)

(** ** Indexing and the field accessors *)

Lemma index_nat {A : Type} (l : list A) (i : nat) :
  index l (Z.of_nat i) =
  match l !! i with Some a => Ok a | None => Panic IndexOutOfRange end.
Proof.
  unfold index. destruct (Z.ltb_spec (Z.of_nat i) 0) as [Hneg|_]; [lia|].
  by rewrite Nat2Z.id.
Qed.

Lemma index_short {A : Type} (l : list A) (i : Z) :
  len l <= i -> index l i = Panic IndexOutOfRange.
Proof.
  intros Hle. unfold index, len in *.
  destruct (Z.ltb_spec i 0) as [|Hpos]; [done|].
  rewrite lookup_ge_None_2; [done|lia].
Qed.

Lemma guarded_index (record : list gostring) (i : nat) :
  (if len record >? Z.of_nat i then index record (Z.of_nat i) else Ok (str "-"))
  = Ok (fieldOrDash record i).
Proof.
  unfold fieldOrDash, len. rewrite index_nat.
  destruct (Z.gtb_spec (Z.of_nat (length record)) (Z.of_nat i)) as [Hlt|Hge].
  - destruct (lookup_lt_is_Some_2 record i) as [a ->]; [lia|done].
  - rewrite lookup_ge_None_2; [done|lia].
Qed.

Section AccessorFacts.
Context `{GoRuntime}.

Lemma fetchCityNameOf_total record :
  fetchCityNameOf record = Ok (fieldOrDash record 1).
Proof. apply (guarded_index record 1). Qed.

Lemma fetchCountryNameOf_total record :
  fetchCountryNameOf record = Ok (fieldOrDash record 8).
Proof. apply (guarded_index record 8). Qed.

Lemma fetchFirstAdministrationLevelOf_total record :
  fetchFirstAdministrationLevelOf record = Ok (fieldOrDash record 10).
Proof. apply (guarded_index record 10). Qed.

Lemma guarded_parse (record : list gostring) (i : nat) :
  (if len record >? Z.of_nat i
   then field ← index record (Z.of_nat i); mret (parse_value (ParseFloat field))
   else Ok f64.zero)
  = Ok (coordinateAt record i).
Proof.
  unfold coordinateAt, len. rewrite index_nat.
  destruct (Z.gtb_spec (Z.of_nat (length record)) (Z.of_nat i)) as [Hlt|Hge].
  - destruct (lookup_lt_is_Some_2 record i) as [a ->]; [lia|done].
  - rewrite lookup_ge_None_2; [done|lia].
Qed.

Lemma fetchLatitude_total record :
  fetchLatitude record = Ok (coordinateAt record 4).
Proof. apply (guarded_parse record 4). Qed.

Lemma fetchLongitude_total record :
  fetchLongitude record = Ok (coordinateAt record 5).
Proof. apply (guarded_parse record 5). Qed.

End AccessorFacts.

(** ** Substring search *)

Lemma HasPrefix_app (p s : gostring) : strings.HasPrefix (p ++ s) p = true.
Proof.
  induction p as [|c p IH]; simpl; [done|].
  by rewrite bool_decide_eq_true_2, IH.
Qed.

Lemma HasPrefix_inv (s p : gostring) :
  strings.HasPrefix s p = true -> exists post, s = p ++ post.
Proof.
  revert s. induction p as [|c p IH]; intros s Hp; simpl in *.
  - by exists s.
  - destruct s as [|d s]; [done|].
    apply andb_true_iff in Hp as [Hc Hp]. apply bool_decide_eq_true in Hc as ->.
    destruct (IH _ Hp) as [post ->]. by exists post.
Qed.

Lemma Index_lower_bound (s sub : gostring) : -1 <= strings.Index s sub.
Proof.
  induction s as [|c s IH]; simpl.
  - destruct (strings.HasPrefix [] sub); lia.
  - destruct (strings.HasPrefix (c :: s) sub); [lia|].
    destruct (Z.ltb_spec (strings.Index s sub) 0); lia.
Qed.

Lemma Index_app (pre sub post : gostring) :
  0 <= strings.Index (pre ++ sub ++ post) sub <= len pre.
Proof.
  unfold len. induction pre as [|c pre IH].
  - simpl app. assert (strings.Index (sub ++ post) sub = 0) as ->; [|simpl; lia].
    pose proof (HasPrefix_app sub post) as Hp.
    destruct (sub ++ post); simpl; simpl in Hp; by rewrite Hp.
  - change ((c :: pre) ++ sub ++ post) with (c :: (pre ++ sub ++ post)).
    simpl strings.Index. simpl length.
    destruct (strings.HasPrefix _ sub); [lia|].
    destruct (Z.ltb_spec (strings.Index (pre ++ sub ++ post) sub) 0); lia.
Qed.

Lemma Contains_app (pre sub post : gostring) :
  strings.Contains (pre ++ sub ++ post) sub = true.
Proof.
  unfold strings.Contains. apply Z.leb_le. apply Index_app.
Qed.

(** [strings.Index] finds an occurrence: the bytes at the index are the
    substring. *)
Lemma Index_found (s sub : gostring) :
  0 <= strings.Index s sub ->
  exists pre post, s = pre ++ sub ++ post /\ strings.Index s sub = len pre.
Proof.
  unfold len. induction s as [|c s IH]; simpl.
  - destruct (strings.HasPrefix [] sub) eqn:Hp; [|lia]. intros _.
    apply HasPrefix_inv in Hp as [post ->]. by exists [], post.
  - destruct (strings.HasPrefix (c :: s) sub) eqn:Hp.
    + intros _. apply HasPrefix_inv in Hp as [post ->]. by exists [], post.
    + destruct (Z.ltb_spec (strings.Index s sub) 0) as [|Hge]; [lia|]. intros _.
      destruct (IH Hge) as (pre & post & -> & ->).
      exists (c :: pre), post. split; [done|]. simpl length. lia.
Qed.

Lemma Contains_inv (s sub : gostring) :
  strings.Contains s sub = true -> exists pre post, s = pre ++ sub ++ post.
Proof.
  unfold strings.Contains. intros Hc%Z.leb_le.
  destruct (Index_found s sub Hc) as (pre & post & -> & _). eauto.
Qed.

(** ** Bytes *)

Lemma b2z_range (c : byte) : 0 <= b2z c < 256.
Proof. unfold b2z. pose proof (Byte.to_N_bounded c). lia. Qed.

Lemma z2b_b2z (c : byte) : z2b (b2z c) = c.
Proof.
  unfold z2b. pose proof (b2z_range c) as Hc.
  rewrite Z.mod_small by done. unfold b2z. rewrite N2Z.id.
  by rewrite Byte.of_to_N.
Qed.

Lemma b2z_z2b (x : Z) : 0 <= x < 256 -> b2z (z2b x) = x.
Proof.
  intros Hx. unfold z2b, b2z. rewrite Z.mod_small by done.
  destruct (Byte.of_N (Z.to_N x)) as [b|] eqn:Hb.
  - apply Byte.to_of_N in Hb. rewrite Hb. lia.
  - apply Byte.of_N_None_iff in Hb. lia.
Qed.

(** Induction on the length of a list. *)
Lemma length_ind {A : Type} (P : list A -> Prop) :
  (forall l, (forall l', (length l' < length l)%nat -> P l') -> P l) ->
  forall l, P l.
Proof.
  intros IH l. remember (length l) as n eqn:Hn. revert l Hn.
  induction (lt_wf n) as [n _ IHn]. intros l ->.
  apply IH. intros l' Hl'. by apply (IHn (length l')).
Qed.

(** ** Decoding UTF-8 *)

Lemma Decode_width (s : gostring) :
  s <> [] ->
  (1 <= snd (utf8.DecodeRuneInString s) <= length s)%nat.
Proof.
  intros Hs. destruct s as [|c0 t0]; [done|].
  unfold utf8.DecodeRuneInString.
  repeat (case_match; simpl in *; try lia).
Qed.

Lemma runes_fuel_enough (fuel : nat) (s : gostring) :
  (length s <= fuel)%nat -> utf8.runes_fuel fuel s = utf8.runes s.
Proof.
  unfold utf8.runes. revert s.
  induction (lt_wf fuel) as [fuel _ IH]. intros s Hlen.
  destruct fuel as [|fuel]; [by destruct s; simpl in *; [|lia]|].
  destruct s as [|c t]; [done|]. simpl length.
  cbn [utf8.runes_fuel].
  destruct (utf8.DecodeRuneInString (c :: t)) as [r w] eqn:Hd.
  pose proof (Decode_width (c :: t) ltac:(done)) as Hw. rewrite Hd in Hw.
  simpl in Hw, Hlen. f_equal.
  assert (length (drop w (c :: t)) <= length t)%nat
    by (rewrite length_drop; simpl; lia).
  rewrite (IH fuel), (IH (length t)); [done|lia..].
Qed.

Lemma runes_nil : utf8.runes [] = [].
Proof. done. Qed.

Lemma runes_cons (s : gostring) :
  s <> [] ->
  utf8.runes s =
  fst (utf8.DecodeRuneInString s) :: utf8.runes (drop (snd (utf8.DecodeRuneInString s)) s).
Proof.
  intros Hs. destruct s as [|c t]; [done|].
  unfold utf8.runes at 1. simpl length. cbn [utf8.runes_fuel].
  destruct (utf8.DecodeRuneInString (c :: t)) as [r w] eqn:Hd. simpl.
  pose proof (Decode_width (c :: t) ltac:(done)) as Hw. rewrite Hd in Hw.
  simpl in Hw. f_equal. apply runes_fuel_enough.
  rewrite length_drop. simpl. lia.
Qed.

(** [utf8.RuneCountInString] counts the elements of [[]rune(s)]. *)
Lemma RuneCountInString_runes (s : gostring) :
  utf8.RuneCountInString s = len (utf8.runes s).
Proof.
  unfold utf8.RuneCountInString, utf8.runes, len.
  generalize (length s) as fuel. intros fuel. revert s.
  induction fuel as [|fuel IH]; intros s; [done|].
  destruct s as [|c t]; [done|]. cbn [utf8.RuneCount_fuel utf8.runes_fuel].
  destruct (utf8.DecodeRuneInString (c :: t)) as [r w]. simpl snd.
  rewrite IH. simpl length. lia.
Qed.

Lemma RuneCountInString_nonneg (s : gostring) : 0 <= utf8.RuneCountInString s.
Proof. rewrite RuneCountInString_runes. unfold len. lia. Qed.



Lemma Valid_fuel_enough (fuel : nat) (s : gostring) :
  (length s <= fuel)%nat -> utf8.Valid_fuel fuel s = utf8.ValidString s.
Proof.
  unfold utf8.ValidString. revert s.
  induction (lt_wf fuel) as [fuel _ IH]. intros s Hlen.
  destruct fuel as [|fuel]; [by destruct s; simpl in *; [|lia]|].
  destruct s as [|c t]; [done|]. simpl length.
  cbn [utf8.Valid_fuel].
  destruct (utf8.DecodeRuneInString (c :: t)) as [r w] eqn:Hd.
  pose proof (Decode_width (c :: t) ltac:(done)) as Hw. rewrite Hd in Hw.
  simpl in Hw, Hlen. case_match; [done|].
  assert (length (drop w (c :: t)) <= length t)%nat
    by (rewrite length_drop; simpl; lia).
  rewrite (IH fuel), (IH (length t)); [done|lia..].
Qed.

Lemma ValidString_cons (s : gostring) :
  s <> [] ->
  utf8.ValidString s = true ->
  utf8.DecodeRuneInString s <> (utf8.RuneError, 1%nat) /\
  utf8.ValidString (drop (snd (utf8.DecodeRuneInString s)) s) = true.
Proof.
  intros Hs. destruct s as [|c t]; [done|].
  unfold utf8.ValidString at 1. simpl length. cbn [utf8.Valid_fuel].
  destruct (utf8.DecodeRuneInString (c :: t)) as [r w] eqn:Hd. simpl snd.
  pose proof (Decode_width (c :: t) ltac:(done)) as Hw. rewrite Hd in Hw.
  simpl in Hw.
  destruct ((r =? utf8.RuneError) && (w =? 1)%nat) eqn:Herr; [done|].
  rewrite Valid_fuel_enough by (rewrite length_drop; simpl; lia).
  intros Hv. split; [|done]. intros [= -> ->]. done.
Qed.

(** A well-formed first rune is decoded the same whatever follows it. *)
Lemma Decode_app (a b : gostring) :
  a <> [] ->
  utf8.DecodeRuneInString a <> (utf8.RuneError, 1%nat) ->
  utf8.DecodeRuneInString (a ++ b) = utf8.DecodeRuneInString a.
Proof.
  intros Ha. destruct a as [|c0 t0]; [done|]. clear Ha.
  change ((c0 :: t0) ++ b) with (c0 :: (t0 ++ b)).
  unfold utf8.DecodeRuneInString. cbv zeta. intros Hne.
  repeat (case_match; simplify_eq/=; try done);
    repeat match goal with
           | H : (_ <? _)%nat = true |- _ => apply Nat.ltb_lt in H
           | H : (_ <? _)%nat = false |- _ => apply Nat.ltb_ge in H
           end;
    rewrite ?length_app in *; simpl in *; lia.
Qed.

(** Decoding distributes over an append whose left part is well formed. *)
Lemma runes_app (a b : gostring) :
  utf8.ValidString a = true ->
  utf8.runes (a ++ b) = utf8.runes a ++ utf8.runes b.
Proof.
  induction a as [a IH] using length_ind. intros Hv.
  destruct a as [|c t]; [done|].
  destruct (ValidString_cons (c :: t) ltac:(done) Hv) as [Hd Hv'].
  pose proof (Decode_width (c :: t) ltac:(done)) as Hw.
  rewrite (runes_cons (c :: t)) by done.
  rewrite (runes_cons ((c :: t) ++ b)) by done.
  rewrite Decode_app by done.
  set (w := snd (utf8.DecodeRuneInString (c :: t))) in *.
  rewrite drop_app_le by lia.
  rewrite IH; [done| |done].
  rewrite length_drop. simpl length in *. lia.
Qed.

Lemma ValidString_app (a b : gostring) :
  utf8.ValidString a = true -> utf8.ValidString b = true ->
  utf8.ValidString (a ++ b) = true.
Proof.
  induction a as [a IH] using length_ind. intros Hva Hvb.
  destruct a as [|c t]; [done|].
  destruct (ValidString_cons (c :: t) ltac:(done) Hva) as [Hd Hv'].
  pose proof (Decode_width (c :: t) ltac:(done)) as Hw.
  unfold utf8.ValidString. change ((c :: t) ++ b) with (c :: (t ++ b)).
  simpl length. cbn [utf8.Valid_fuel].
  change (c :: (t ++ b)) with ((c :: t) ++ b).
  rewrite Decode_app by done.
  destruct (utf8.DecodeRuneInString (c :: t)) as [r w] eqn:Hdec.
  simpl snd in *.
  destruct ((r =? utf8.RuneError) && (w =? 1)%nat) eqn:Herr.
  { apply andb_true_iff in Herr as [->%Z.eqb_eq ->%Nat.eqb_eq]. done. }
  rewrite Valid_fuel_enough.
  2:{ rewrite length_drop, !length_app. simpl length in *. lia. }
  rewrite drop_app_le by lia. apply IH; [|done..].
  rewrite length_drop. simpl length in *. lia.
Qed.

Lemma runes_ASCII (s : gostring) :
  isASCII s = true -> utf8.runes s = List.map b2z s.
Proof.
  induction s as [|c t IH]; [done|]. simpl. intros [Hc Ht]%andb_true_iff.
  rewrite runes_cons by done. unfold utf8.DecodeRuneInString.
  rewrite Hc. simpl. rewrite drop_0. by rewrite IH.
Qed.

Lemma ValidString_ASCII (s : gostring) :
  isASCII s = true -> utf8.ValidString s = true.
Proof.
  unfold utf8.ValidString.
  induction s as [|c t IH]; [done|]. simpl. intros [Hc Ht]%andb_true_iff.
  unfold utf8.DecodeRuneInString. rewrite Hc.
  assert ((b2z c =? utf8.RuneError) = false) as ->.
  { apply Z.eqb_neq. apply Z.ltb_lt in Hc. unfold utf8.RuneSelf, utf8.RuneError in *. lia. }
  simpl. rewrite drop_0. by apply IH.
Qed.

Lemma isASCII_app (a b : gostring) :
  isASCII (a ++ b) = isASCII a && isASCII b.
Proof. apply forallb_app. Qed.

Lemma RuneCountInString_ASCII (s : gostring) :
  isASCII s = true -> utf8.RuneCountInString s = len s.
Proof.
  intros Hs. rewrite RuneCountInString_runes, runes_ASCII by done.
  unfold len. by rewrite length_map.
Qed.

(** ** Lower-casing *)

Section LowerFacts.
Context `{GoRuntime}.

Lemma ToLower_ASCII (s : gostring) :
  isASCII s = true -> strings.ToLower s = List.map lowerByte s.
Proof.
  intros Hs. unfold strings.ToLower. fold (isASCII s). rewrite Hs. cbv zeta.
  destruct (existsb _ s) eqn:Hup; [done|]. simpl.
  clear Hs. induction s as [|c t IH]; [done|].
  simpl in Hup. apply orb_false_iff in Hup as [Hc Ht].
  simpl. unfold lowerByte at 1. rewrite Hc. by rewrite <- IH.
Qed.

Lemma Map_ToLower_ASCII (s : gostring) :
  isASCII s = true -> strings.Map unicode.ToLower s = List.map lowerByte s.
Proof.
  intros Hs. unfold strings.Map. rewrite runes_ASCII by done.
  induction s as [|c t IH]; [done|].
  simpl in Hs. apply andb_true_iff in Hs as [Hc Ht]. apply Z.ltb_lt in Hc.
  pose proof (b2z_range c) as Hr. unfold utf8.RuneSelf in Hc.
  cbn [List.map flat_map]. rewrite IH by done.
  unfold unicode.ToLower, unicode.MaxASCII, lowerByte.
  destruct (Z.leb_spec (b2z c) 127) as [_|]; [|lia].
  destruct ((65 <=? b2z c) && (b2z c <=? 90)) eqn:Hup.
  - apply andb_true_iff in Hup as [?%Z.leb_le ?%Z.leb_le].
    destruct (Z.ltb_spec (b2z c + (97 - 65)) 0); [lia|].
    unfold utf8.EncodeRune.
    destruct (Z.leb_spec 0 (b2z c + (97 - 65))); [|lia].
    destruct (Z.leb_spec (b2z c + (97 - 65)) 127); [|lia]. done.
  - destruct (Z.ltb_spec (b2z c) 0); [lia|].
    unfold utf8.EncodeRune.
    destruct (Z.leb_spec 0 (b2z c)); [|lia].
    destruct (Z.leb_spec (b2z c) 127); [|lia]. simpl. by rewrite z2b_b2z.
Qed.

(** The two paths of [strings.ToLower] agree: it maps [unicode.ToLower] over
    the runes of the string. *)
Lemma ToLower_Map (s : gostring) :
  strings.ToLower s = strings.Map unicode.ToLower s.
Proof.
  destruct (isASCII s) eqn:Hs.
  - by rewrite ToLower_ASCII, Map_ToLower_ASCII.
  - unfold strings.ToLower. fold (isASCII s). by rewrite Hs.
Qed.

Lemma ToLower_app (a b : gostring) :
  utf8.ValidString a = true ->
  strings.ToLower (a ++ b) = strings.ToLower a ++ strings.ToLower b.
Proof.
  intros Hv. rewrite !ToLower_Map. unfold strings.Map.
  rewrite runes_app by done. apply flat_map_app.
Qed.

Lemma isASCII_lower (s : gostring) :
  isASCII s = true -> isASCII (List.map lowerByte s) = true.
Proof.
  induction s as [|c t IH]; [done|]. simpl.
  intros [Hc Ht]%andb_true_iff. rewrite IH by done.
  rewrite andb_true_r. unfold lowerByte.
  destruct ((65 <=? b2z c) && (b2z c <=? 90)) eqn:Hup; [|done].
  apply andb_true_iff in Hup as [?%Z.leb_le ?%Z.leb_le].
  rewrite b2z_z2b by lia. apply Z.ltb_lt. unfold utf8.RuneSelf. lia.
Qed.

End LowerFacts.

(** ** Floating-point arithmetic *)












(** ** Comparing scores *)

Lemma SFcompare_key (x y : spec_float) :
  f32.is_nan x = false -> f32.is_nan y = false ->
  match SFcompare x y with
  | Some Lt => lt3 (key x) (key y)
  | Some Eq => key x = key y
  | Some Gt => lt3 (key y) (key x)
  | None => False
  end.
Proof.
  destruct x as [sx|sx| |sx mx ex], y as [sy|sy| |sy my ey]; try done; intros _ _;
    try (destruct sx; try destruct sy; simpl; unfold lt3; simpl; (done || lia)).
  destruct sx, sy; simpl; unfold lt3; simpl; try lia;
    change (Pos.compare_cont Eq mx my) with (Pos.compare mx my);
    destruct (Z.compare_spec ex ey); try lia;
    destruct (Pos.compare_spec mx my); simpl; try lia; subst; done.
Qed.

Lemma gtb_key (x y : float32) :
  f32.is_nan x = false -> f32.is_nan y = false ->
  f32.gtb x y = true <-> lt3 (key y) (key x).
Proof.
  intros Hx Hy. unfold f32.gtb, SFltb.
  pose proof (SFcompare_key y x Hy Hx) as Hc.
  pose proof (SFcompare_key x y Hx Hy) as Hc'.
  destruct (SFcompare y x) as [[]|]; try done; split; try done; intros Hlt.
  - rewrite Hc in Hlt. unfold lt3 in Hlt. lia.
  - unfold lt3 in *. lia.
Qed.

Lemma eqb_key (x y : float32) :
  f32.is_nan x = false -> f32.is_nan y = false ->
  f32.eqb x y = true <-> key x = key y.
Proof.
  intros Hx Hy. unfold f32.eqb, SFeqb.
  pose proof (SFcompare_key x y Hx Hy) as Hc.
  destruct (SFcompare x y) as [[]|]; try done; split; try done; intros Heq;
    rewrite Heq in Hc; unfold lt3 in Hc; lia.
Qed.

Lemma eqb_nan_r (x y : float32) : f32.is_nan y = true -> f32.eqb x y = false.
Proof. destruct y; try done. by destruct x. Qed.

Lemma eqb_nan_l (x y : float32) : f32.is_nan x = true -> f32.eqb x y = false.
Proof. destruct x; try done. Qed.

(** ** The stable insertion sort *)

Lemma StronglySorted_rev {A : Type} (R : relation A) (l : list A) :
  StronglySorted R l -> StronglySorted (flip R) (rev l).
Proof.
  induction l as [|x l IH]; intros Hs; simpl; [constructor|].
  apply StronglySorted_cons in Hs as [Hx Hl].
  apply StronglySorted_app. split_and!.
  - intros y z Hy ->%list_elem_of_singleton.
    apply list_elem_of_In, in_rev, list_elem_of_In in Hy.
    rewrite Forall_forall in Hx. by apply Hx.
  - by apply IH.
  - repeat constructor.
Qed.

Lemma StronglySorted_weaken {A : Type} (R R' : relation A) (P : A -> Prop) (l : list A) :
  (forall a b, P a -> P b -> R a b -> R' a b) ->
  Forall P l -> StronglySorted R l -> StronglySorted R' l.
Proof.
  intros HR. induction l as [|x l IH]; intros HP Hs; [constructor|].
  apply Forall_cons in HP as [Hx HP].
  apply StronglySorted_cons in Hs as [Hxl Hs].
  apply StronglySorted_cons. split; [|by apply IH].
  rewrite Forall_forall in Hxl, HP |- *. intros y Hy. apply HR; auto.
Qed.

Section SortFacts.
Context {A : Type} (less : A -> A -> bool) (ok : A -> Prop).
Hypothesis less_asym :
  forall x y, ok x -> ok y -> less x y = true -> less y x = false.
Hypothesis less_cotrans :
  forall x y z, ok x -> ok y -> ok z ->
    less x y = false -> less y z = false -> less x z = false.

Lemma sink_Permutation (x : A) (before : list A) :
  sort.sink less x before ≡ₚ x :: before.
Proof.
  induction before as [|y before IH]; simpl; [done|].
  destruct (less x y); [|done]. rewrite IH. apply Permutation_swap.
Qed.

Lemma sink_sorted (x : A) (before : list A) :
  ok x -> Forall ok before -> sortedBefore less before ->
  sortedBefore less (sort.sink less x before).
Proof.
  unfold sortedBefore. intros Hx.
  induction before as [|y before IH]; intros Hok Hs; simpl.
  - repeat constructor.
  - apply Forall_cons in Hok as [Hy Hok].
    apply StronglySorted_cons in Hs as [Hys Hs].
    destruct (less x y) eqn:Hxy.
    + apply StronglySorted_cons. split; [|by apply IH].
      rewrite sink_Permutation. constructor; [by apply less_asym|done].
    + apply StronglySorted_cons. split.
      * constructor; [done|].
        rewrite Forall_forall in Hys, Hok |- *. intros z Hz.
        apply (less_cotrans x y z); auto.
      * by apply StronglySorted_cons.
Qed.

(** Sinking never moves an element past another of its class, for a class
    [P] no two members of which are ordered by [less]. *)
Lemma sink_filter (P : A -> bool) (x : A) (before : list A) :
  (forall a b, P a = true -> P b = true -> less a b = false) ->
  List.filter P (sort.sink less x before) = List.filter P (x :: before).
Proof.
  intros HP. induction before as [|y before IH]; [done|]. simpl.
  destruct (less x y) eqn:Hxy; [|done].
  simpl. rewrite IH. simpl.
  destruct (P x) eqn:Hx, (P y) eqn:Hy; try done.
  by rewrite HP in Hxy.
Qed.

Lemma fold_sink (P : A -> bool) (data before : list A) :
  (forall a b, P a = true -> P b = true -> less a b = false) ->
  Forall ok data -> Forall ok before -> sortedBefore less before ->
  let after := fold_left (fun sorted x => sort.sink less x sorted) data before in
  after ≡ₚ data ++ before /\ sortedBefore less after /\
  List.filter P after = rev (List.filter P data) ++ List.filter P before.
Proof.
  intros HP. revert before.
  induction data as [|x data IH]; intros before Hdata Hbefore Hs; simpl.
  - done.
  - apply Forall_cons in Hdata as [Hx Hdata].
    destruct (IH (sort.sink less x before)) as (Hperm & Hsorted & Hfilter).
    + done.
    + by rewrite sink_Permutation; constructor.
    + by apply sink_sorted.
    + split_and!; [|done|].
      * rewrite Hperm, sink_Permutation. by rewrite Permutation_middle.
      * rewrite Hfilter, sink_filter by done. simpl.
        destruct (P x); simpl; by rewrite <- ?app_assoc.
Qed.

(** The insertion sort rearranges its input, so that no element is less than
    one before it, and keeps the order within each class. *)
Lemma insertionSort_stable (data : list A) :
  Forall ok data ->
  sort.insertionSort less data ≡ₚ data /\
  StronglySorted (fun earlier later => less later earlier = false)
                 (sort.insertionSort less data) /\
  forall P : A -> bool,
    (forall a b, P a = true -> P b = true -> less a b = false) ->
    List.filter P (sort.insertionSort less data) = List.filter P data.
Proof.
  intros Hok. unfold sort.insertionSort. split_and!.
  - destruct (fold_sink (fun _ => false) data [] ltac:(done) Hok ltac:(done))
      as (Hperm & _); [constructor|].
    rewrite <- Permutation_rev, Hperm. by rewrite app_nil_r.
  - destruct (fold_sink (fun _ => false) data [] ltac:(done) Hok ltac:(done))
      as (_ & Hsorted & _); [constructor|].
    by apply StronglySorted_rev in Hsorted.
  - intros P HP.
    destruct (fold_sink P data [] HP Hok ltac:(done)) as (_ & _ & Hfilter);
      [constructor|].
    rewrite List.filter_rev, Hfilter. simpl. by rewrite app_nil_r, rev_involutive.
Qed.

End SortFacts.

Lemma geb_key (x y : float32) :
  f32.is_nan x = false -> f32.is_nan y = false ->
  f32.geb x y = true <-> ~ lt3 (key x) (key y).
Proof.
  intros Hx Hy. unfold f32.geb, SFleb.
  pose proof (SFcompare_key y x Hy Hx) as Hc.
  destruct (SFcompare y x) as [[]|]; try done; split; try done; intros Hlt.
  - rewrite Hc. unfold lt3. lia.
  - unfold lt3 in *. lia.
Qed.

(** Two lists in descending order of a score that is never NaN, each a
    rearrangement of the other, with the same elements of every one score in
    the same order, are equal. *)
Lemma stable_sorted_unique {A : Type} (score : A -> float32) (l1 l2 : list A) :
  Forall (fun a => f32.is_nan (score a) = false) l1 ->
  l1 ≡ₚ l2 ->
  StronglySorted (fun earlier later => f32.geb (score earlier) (score later) = true) l1 ->
  StronglySorted (fun earlier later => f32.geb (score earlier) (score later) = true) l2 ->
  (forall s, List.filter (fun a => f32.eqb (score a) s) l1 =
             List.filter (fun a => f32.eqb (score a) s) l2) ->
  l1 = l2.
Proof.
  revert l2. induction l1 as [|x l1 IH]; intros l2 Hok Hperm Hs1 Hs2 Hfilter.
  - by apply Permutation_nil_l in Hperm.
  - destruct l2 as [|y l2]; [by apply Permutation_nil_r in Hperm|].
    apply Forall_cons in Hok as [Hx Hok].
    assert (Forall (fun a => f32.is_nan (score a) = false) (y :: l2)) as Hok2
      by (rewrite <- Hperm; by constructor).
    apply Forall_cons in Hok2 as [Hy Hok2].
    apply StronglySorted_cons in Hs1 as [Hx1 Hs1].
    apply StronglySorted_cons in Hs2 as [Hy2 Hs2].
    assert (f32.eqb (score x) (score x) = true) as Hxx by (by apply eqb_key).
    assert (x = y) as <-.
    { pose proof (Hfilter (score x)) as Hf. simpl in Hf. rewrite Hxx in Hf.
      destruct (f32.eqb (score y) (score x)) eqn:Hyx; [by injection Hf|].
      exfalso.
      assert (x ∈ l2) as Hxin.
      { assert (x ∈ y :: l2) as Hin by (rewrite <- Hperm; left).
        apply elem_of_cons in Hin as [->|]; [|done]. by rewrite Hxx in Hyx. }
      assert (y ∈ l1) as Hyin.
      { assert (y ∈ x :: l1) as Hin by (rewrite Hperm; left).
        apply elem_of_cons in Hin as [->|]; [|done]. by rewrite Hxx in Hyx. }
      rewrite Forall_forall in Hx1, Hy2.
      pose proof (Hx1 y Hyin) as Hge1. pose proof (Hy2 x Hxin) as Hge2.
      apply geb_key in Hge1, Hge2; [|done..].
      apply not_true_iff_false in Hyx. rewrite eqb_key in Hyx by done.
      apply Hyx. unfold lt3 in *.
      destruct (key (score x)) as [[? ?] ?], (key (score y)) as [[? ?] ?].
      simpl in *. f_equal; [f_equal|]; lia. }
    f_equal. apply IH; [done|by apply Permutation_cons_inv in Hperm|done..|].
    intros s. pose proof (Hfilter s) as Hf. simpl in Hf.
    destruct (f32.eqb (score x) s); [by injection Hf|done].
Qed.

(** ** The scoring functions never panic *)

Section ScoreFacts.
Context `{GoRuntime}.

Lemma computeLatitudeScoreWeight_total query record :
  computeLatitudeScoreWeight query record =
  Ok (axisWeight (ParseFloat (latitude query)) (coordinateAt record 4) 180).
Proof.
  unfold computeLatitudeScoreWeight. rewrite fetchLatitude_total.
  by destruct (ParseFloat (latitude query)).
Qed.

Lemma computeLongitudeScoreWeight_total query record :
  computeLongitudeScoreWeight query record =
  Ok (axisWeight (ParseFloat (longitude query)) (coordinateAt record 5) 360).
Proof.
  unfold computeLongitudeScoreWeight. rewrite fetchLongitude_total.
  by destruct (ParseFloat (longitude query)).
Qed.

Lemma computeScoreFor_total query matchedWord record :
  computeScoreFor query matchedWord record = Ok (scoreOf query matchedWord record).
Proof.
  unfold computeScoreFor.
  by rewrite computeLatitudeScoreWeight_total, computeLongitudeScoreWeight_total.
Qed.

(** [matchQueryName] in closed form: the three fields in their order, the
    second and third read, and a short row noticed, only when the fields
    before them do not match. *)
Lemma matchQueryName_cases record query :
  matchQueryName record query =
  if strings.Contains (strings.ToLower (fieldOrDash record 1)) (name query)
  then Ok (true, f32.of_f64 (scoreOf query (fieldOrDash record 1) record))
  else
    match record !! 2%nat with
    | None => Panic IndexOutOfRange
    | Some asciiName =>
      if strings.Contains (strings.ToLower asciiName) (name query)
      then Ok (true, f32.of_f64 (scoreOf query asciiName record))
      else
        match record !! 3%nat with
        | None => Panic IndexOutOfRange
        | Some alternateNames =>
          if strings.Contains (strings.ToLower alternateNames) (name query)
          then
            matchedWholeWord ←
              findMatchingAlternateNameWholeWord alternateNames (name query);
            Ok (true, f32.of_f64 (scoreOf query matchedWholeWord record))
          else Ok (false, f32.of_f64 f64.zero)
        end
    end.
Proof.
  unfold matchQueryName. rewrite fetchCityNameOf_total. simpl.
  destruct (strings.Contains _ _); [by rewrite computeScoreFor_total|].
  change cityASCIINameIndex with (Z.of_nat 2).
  change cityAlernateNamesIndex with (Z.of_nat 3).
  rewrite !index_nat.
  destruct (record !! 2%nat) as [asciiName|]; [|done]. simpl.
  destruct (strings.Contains _ _); [by rewrite computeScoreFor_total|].
  destruct (record !! 3%nat) as [alternateNames|]; [|done]. simpl.
  destruct (strings.Contains _ _); [|done].
  destruct (findMatchingAlternateNameWholeWord _ _); [|done]. simpl.
  by rewrite computeScoreFor_total.
Qed.

Lemma suggestionOf_cases query record :
  suggestionOf query record =
  '(matched, score) ← matchQueryName record query;
  Ok (if matched : bool then Some (suggestionFor record score) else None).
Proof.
  unfold suggestionOf. destruct (matchQueryName record query) as [[[] score]|]; [|done..].
  simpl. rewrite fetchCityNameOf_total, fetchFirstAdministrationLevelOf_total,
    fetchCountryNameOf_total, fetchLatitude_total, fetchLongitude_total. done.
Qed.

(** The loop appends, record after record, what [suggestionOf] finds. *)
Lemma scanRecords_mapM rest query result_ :
  scanRecords rest query result_ =
  found ← mapM (suggestionOf query) rest; Ok (result_ ++ omap id found).
Proof.
  revert result_. induction rest as [|record rest IH]; intros result_; simpl.
  - by rewrite app_nil_r.
  - destruct (suggestionOf query record) as [[m|]|]; simpl; [| |done].
    + rewrite IH. destruct (mapM _ rest); simpl; [|done].
      by rewrite <- app_assoc.
    + rewrite IH. by destruct (mapM _ rest).
Qed.

End ScoreFacts.

(** ** Slicing a rune slice *)

Lemma slice_within (a : list rune) (spare : nat) (lo hi : Z) :
  0 <= lo <= hi -> hi <= len a + Z.of_nat spare ->
  slice a spare lo hi =
  Ok (take (Z.to_nat (hi - lo)) (drop (Z.to_nat lo) (a ++ replicate spare 0))).
Proof.
  intros Hlo Hhi. unfold slice.
  destruct (Z.ltb_spec lo 0); [lia|].
  destruct (Z.ltb_spec hi lo); [lia|].
  destruct (Z.ltb_spec (len a + Z.of_nat spare) hi); [lia|]. done.
Qed.

Lemma slice_beyond (a : list rune) (spare : nat) (lo hi : Z) :
  len a + Z.of_nat spare < hi ->
  slice a spare lo hi = Panic SliceBoundsOutOfRange.
Proof.
  intros Hhi. unfold slice.
  destruct (Z.ltb_spec (len a + Z.of_nat spare) hi); [|lia].
  by rewrite orb_true_r.
Qed.

(** ** The scans of [findMatchingAlternateNameWholeWord] *)

Section ScanFacts.
Context `{GoRuntime}.

(** Going left from [n] over runes that are not commas, the scan stops after
    the comma at [s], or at 0 without reading the rune there. *)
Lemma wordStartLoop_found (alternateNames : list rune) (n s : nat) :
  (s <= n)%nat ->
  (forall j, (s < j <= n)%nat -> exists c, alternateNames !! j = Some c /\ c <> 44) ->
  (s = 0%nat \/ alternateNames !! s = Some 44) ->
  wordStartLoop alternateNames n = Ok (if decide (s = 0%nat) then 0 else Z.of_nat s + 1).
Proof.
  unfold rune in *. intros Hsn Hrunes Hs. induction n as [|n IH].
  - assert (s = 0%nat) as -> by lia. done.
  - cbn [wordStartLoop]. rewrite index_nat. unfold rune.
    destruct (decide (s = S n)) as [->|Hne].
    + destruct Hs as [Hz|Hs]; [done|]. rewrite Hs. simpl. done.
    + destruct (Hrunes (S n)) as (c & -> & Hc); [lia|]. simpl.
      destruct (Z.eqb_spec c 44) as [|_]; [done|].
      apply IH; [lia|]. intros j Hj. apply Hrunes. lia.
Qed.

(** Going right from [p] over runes that are not commas, the scan stops
    before the comma at [t]. *)
Lemma wordEndLoop_found (alternateNames : list rune) (steps p t : nat) :
  (p <= t)%nat -> (t - p < steps)%nat ->
  (forall j, (p <= j < t)%nat -> exists c, alternateNames !! j = Some c /\ c <> 44) ->
  alternateNames !! t = Some 44 ->
  wordEndLoop alternateNames steps (Z.of_nat p) = Ok (Z.of_nat t - 1).
Proof.
  unfold rune in *. intros Hpt Hsteps Hrunes Ht. revert p Hpt Hsteps Hrunes.
  induction steps as [|steps IH]; intros p Hpt Hsteps Hrunes; [lia|].
  cbn [wordEndLoop]. unfold rune.
  assert (t < length alternateNames)%nat by (by eapply lookup_lt_Some).
  destruct (Z.ltb_spec (Z.of_nat p) (len alternateNames)) as [_|Hge];
    [|unfold len in Hge; lia].
  rewrite index_nat. unfold rune.
  destruct (decide (p = t)) as [->|Hne].
  - rewrite Ht. simpl. done.
  - destruct (Hrunes p) as (c & -> & Hc); [lia|]. simpl.
    destruct (Z.eqb_spec c 44) as [|_]; [done|].
    replace (Z.of_nat p + 1) with (Z.of_nat (S p)) by lia.
    apply IH; [lia|lia|]. intros j Hj. apply Hrunes. lia.
Qed.

Lemma string_of_runes_ASCII (s : gostring) :
  isASCII s = true -> utf8.string_of_runes (List.map b2z s) = s.
Proof.
  induction s as [|c s IH]; [done|]. simpl.
  intros [Hc Hs]%andb_true_iff. unfold utf8.string_of_runes in *. simpl.
  rewrite IH by done. unfold utf8.EncodeRune.
  pose proof (b2z_range c). apply Z.ltb_lt in Hc. unfold utf8.RuneSelf in Hc.
  destruct (Z.leb_spec 0 (b2z c)); [|lia].
  destruct (Z.leb_spec (b2z c) 127); [|lia]. simpl. by rewrite z2b_b2z.
Qed.

(** An occurrence of a string in an ASCII string is an ASCII string. *)
Lemma Index_ASCII (s sub : gostring) :
  isASCII s = true -> 0 <= strings.Index s sub -> isASCII sub = true.
Proof.
  intros Hs Hi. destruct (Index_found s sub Hi) as (pre & post & -> & _).
  rewrite !isASCII_app in Hs. by destruct (isASCII pre), (isASCII sub).
Qed.

End ScanFacts.

(** ** The scan of the records *)

Lemma mapM_result_app {A B : Type} (f : A -> result B) (l1 l2 : list A) :
  mapM f (l1 ++ l2) = a ← mapM f l1; b ← mapM f l2; Ok (a ++ b).
Proof.
  induction l1 as [|x l1 IH]; simpl.
  - by destruct (mapM f l2).
  - destruct (f x) as [y|]; simpl; [|done]. rewrite IH.
    destruct (mapM f l1) as [a|]; simpl; [|done].
    by destruct (mapM f l2).
Qed.



Section ScanFacts2.
Context `{GoRuntime}.

(** [findSuggestionsFor] on a non-empty name, as a map over the records. *)
Lemma findSuggestionsFor_mapM repository query :
  name query <> [] ->
  findSuggestionsFor repository query =
  found ← mapM (suggestionOf (lowered query)) (records repository);
  Ok {| Suggestions := omap id found |}.
Proof.
  intros Hname. unfold findSuggestionsFor.
  destruct (decide (name query = [])) as [|_]; [done|].
  fold (lowered query). rewrite scanRecords_mapM.
  by destruct (mapM _ _).
Qed.

(** What a record that does not make the scan panic contributes. *)
Lemma suggestionOf_Ok query record found :
  suggestionOf query record = Ok found ->
  (recordMatches (name query) record = true /\
   exists score, found = Some (suggestionFor record score)) \/
  (recordMatches (name query) record = false /\ found = None).
Proof.
  rewrite suggestionOf_cases, matchQueryName_cases. unfold recordMatches.
  destruct (strings.Contains (strings.ToLower (fieldOrDash record 1)) (name query)).
  { simpl. intros [= <-]. left. eauto. }
  destruct (record !! 2%nat) as [asciiName|]; [|done].
  destruct (strings.Contains (strings.ToLower asciiName) (name query)).
  { simpl. intros [= <-]. left. eauto. }
  destruct (record !! 3%nat) as [alternateNames|]; [|done].
  destruct (strings.Contains (strings.ToLower alternateNames) (name query)).
  - destruct (findMatchingAlternateNameWholeWord _ _); [|done].
    simpl. intros [= <-]. left. eauto.
  - simpl. intros [= <-]. by right.
Qed.

Lemma sameReadColumns_lookup record record' i :
  sameReadColumns record record' -> i ∈ readColumns -> record !! i = record' !! i.
Proof. unfold sameReadColumns. rewrite Forall_forall. auto. Qed.

Lemma suggestionOf_frame query record record' :
  sameReadColumns record record' ->
  suggestionOf query record = suggestionOf query record'.
Proof.
  intros Hsame.
  assert (forall i, i ∈ readColumns -> record !! i = record' !! i) as Hcol
    by (intros i; by apply sameReadColumns_lookup).
  assert (forall i, i ∈ readColumns -> fieldOrDash record i = fieldOrDash record' i) as Hfield
    by (intros i Hi; unfold fieldOrDash; by rewrite Hcol).
  assert (forall i, i ∈ readColumns -> coordinateAt record i = coordinateAt record' i) as Hcoord
    by (intros i Hi; unfold coordinateAt; by rewrite Hcol).
  assert (forall word, scoreOf query word record = scoreOf query word record') as Hscore
    by (intros word; unfold scoreOf; rewrite !Hcoord; [done|unfold readColumns; set_solver..]).
  assert (forall score, suggestionFor record score = suggestionFor record' score) as Hsugg.
  { intros score. unfold suggestionFor.
    rewrite !Hfield, !Hcoord; [done|unfold readColumns; set_solver..]. }
  rewrite !suggestionOf_cases, !matchQueryName_cases.
  rewrite (Hfield 1%nat), (Hcol 2%nat), (Hcol 3%nat) by (unfold readColumns; set_solver).
  destruct (strings.Contains _ _); [by rewrite Hscore; simpl; rewrite Hsugg|].
  destruct (record' !! 2%nat) as [asciiName|]; [|done].
  destruct (strings.Contains _ _); [by rewrite Hscore; simpl; rewrite Hsugg|].
  destruct (record' !! 3%nat) as [alternateNames|]; [|done].
  destruct (strings.Contains _ _); [|done].
  destruct (findMatchingAlternateNameWholeWord _ _); [|done].
  simpl. by rewrite Hscore, Hsugg.
Qed.

End ScanFacts2.

(** ** The scans on arbitrary runes *)


Section ScanTotal.
Context `{GoRuntime}.




(** Going right over runes that are not commas up to the end of the slice,
    the scan returns the length of the slice. *)
Lemma wordEndLoop_end (alternateNames : list rune) (steps p : nat) :
  (p <= length alternateNames)%nat -> (length alternateNames - p <= steps)%nat ->
  (forall j, (p <= j < length alternateNames)%nat ->
             exists c, alternateNames !! j = Some c /\ c <> 44) ->
  wordEndLoop alternateNames steps (Z.of_nat p) = Ok (len alternateNames).
Proof.
  unfold rune in *. revert p. induction steps as [|steps IH]; intros p Hp Hsteps Hrunes.
  - simpl. unfold len. f_equal. lia.
  - cbn [wordEndLoop]. unfold rune.
    destruct (Z.ltb_spec (Z.of_nat p) (len alternateNames)) as [Hlt|Hge];
      unfold len in *; [|f_equal; lia].
    rewrite index_nat. unfold rune.
    destruct (Hrunes p) as (c & -> & Hc); [lia|]. simpl.
    destruct (Z.eqb_spec c 44) as [|_]; [done|].
    replace (Z.of_nat p + 1) with (Z.of_nat (S p)) by lia.
    apply IH; [lia|lia|]. intros j Hj. apply Hrunes. lia.
Qed.



End ScanTotal.
Section AliasFacts.
Context `{GoRuntime}.

(** The scan to the left from inside an alias that starts at [b]: it stops
    at [b] after the comma at [b - 1]; when [b] is 0 or 1 it stops at 0,
    without reading the rune there. *)
Lemma start_of_alias (alternateNames : list rune) (b k : nat) :
  (forall j, (b <= j <= b + k)%nat ->
             exists c, alternateNames !! j = Some c /\ c <> 44) ->
  (b <= 1)%nat \/ alternateNames !! (b - 1)%nat = Some 44 ->
  findAlternateNameWordStartIndex alternateNames (Z.of_nat b + Z.of_nat k)
  = Ok (if decide (b <= 1)%nat then 0 else Z.of_nat b).
Proof.
  unfold rune in *. intros Hinside Hb. unfold findAlternateNameWordStartIndex.
  destruct (Z.gtb_spec (Z.of_nat b + Z.of_nat k) 0) as [Hpos|Hzero].
  - replace (Z.to_nat (Z.of_nat b + Z.of_nat k)) with (b + k)%nat by lia.
    destruct (decide (b <= 1)%nat) as [Hsmall|Hbig].
    + rewrite (wordStartLoop_found alternateNames _ 0); [done|lia| |by left].
      intros j Hj. destruct (decide (j = 0%nat)) as [->|]; [lia|].
      apply Hinside. lia.
    + destruct Hb as [|Hcomma]; [lia|].
      rewrite (wordStartLoop_found alternateNames _ (b - 1)); [|lia| |by right].
      * rewrite decide_False by lia. f_equal. lia.
      * intros j Hj. apply Hinside. lia.
  - rewrite decide_True by lia. f_equal. lia.
Qed.

Lemma string_of_runes_app (a b : list rune) :
  utf8.string_of_runes (a ++ b) = utf8.string_of_runes a ++ utf8.string_of_runes b.
Proof. apply flat_map_app. Qed.

(** The runes of an alias inside ASCII alternate names are not commas. *)
Lemma alias_runes (before token rest : gostring) (j : nat) :
  Forall (fun c => c <> ","%byte) token ->
  (length before <= j < length before + length token)%nat ->
  exists c, List.map b2z (before ++ token ++ rest) !! j = Some c /\ c <> 44.
Proof.
  intros Htoken Hj.
  destruct (lookup_lt_is_Some_2 token (j - length before)) as [c Hc]; [lia|].
  exists (b2z c). split.
  - rewrite list_lookup_fmap, lookup_app_r by lia.
    rewrite lookup_app_l by lia. by rewrite Hc.
  - rewrite Forall_forall in Htoken.
    assert (c <> ","%byte) as Hne by (apply Htoken; by eapply list_elem_of_lookup_2).
    intros Heq. apply Hne. rewrite <- (z2b_b2z c), Heq. done.
Qed.

End AliasFacts.

Section PanicFacts.
Context `{GoRuntime}.


Lemma sub_self (x : float64) : isFinite x = true -> f64.sub x x = S754_zero false.
Proof.
  destruct x as [[]| | |s m e]; try done. intros _.
  unfold f64.sub, SFsub. rewrite Z.min_id. unfold shl_align.
  rewrite Z.sub_diag. cbn [fst]. rewrite ?Z.sub_diag. done.
Qed.

(** The weight of an axis on which the record lies at the hint. *)
Lemma axisWeight_same (hint : float64) (span : Z) :
  isFinite hint = true -> span = 180 \/ span = 360 ->
  axisWeight (Parsed hint) hint span = S754_finite false (2 ^ 52) (-52).
Proof.
  intros Hfin Hspan. unfold axisWeight. rewrite sub_self by done.
  by destruct Hspan as [-> | ->]; vm_compute.
Qed.

End PanicFacts.

(** * The claims *)

Section Claims.
Context `{GoRuntime}.

(** C1 (defect of the code).  The claim: a row of fewer than 11 fields never
    makes the computation fail.  [matchQueryName] reads the ASCII name,
    [record[2]], without the guard the accessors have: on a row of at most
    two fields whose name does not contain the query, computing the
    suggestions panics with an index out of range. *)
Theorem C1_short_row_panics (record : list gostring) (rest : list (list gostring))
    (query : cityQuery) :
  (length record <= 2)%nat ->
  name query <> [] ->
  strings.Contains (strings.ToLower (fieldOrDash record 1))
                   (strings.ToLower (name query)) = false ->
  FindRankedSuggestionsFor {| records := record :: rest |} query
  = Panic IndexOutOfRange.
Proof.
  intros Hlen Hname Hmiss.
  unfold FindRankedSuggestionsFor, findSuggestionsFor.
  destruct (decide (name query = [])) as [|_]; [done|].
  simpl. rewrite suggestionOf_cases, matchQueryName_cases. simpl.
  rewrite Hmiss. by rewrite lookup_ge_None_2 by lia.
Qed.

(** C2 (defect of the code).  The claim: the matched word is exactly the
    comma-delimited token around the match, through the character before the
    following comma or the end of the string.  When no comma follows the
    match, [findAlternateNameWordEndIndex] returns the length of the slice,
    not the index of its last element, and the word is cut at one past the
    length: the slice expression panics when the slice has no spare
    capacity, and otherwise the word ends with the zero rune that lies past
    the length.  Either way it is not the token. *)
Theorem C2_last_alias_not_extracted :
  findMatchingAlternateNameWholeWord (str "Springfield") (str "field") =
  match runeSliceSpare 11 with
  | O => Panic SliceBoundsOutOfRange
  | S _ => Ok (str "Springfield" ++ [x00])
  end.
Proof.
  unfold findMatchingAlternateNameWholeWord.
  assert (strings.Index (strings.ToLower (str "Springfield")) (str "field") = 6) as ->
    by (vm_compute; reflexivity).
  assert (utf8.runes (str "Springfield") = List.map b2z (str "Springfield")) as ->
    by (vm_compute; reflexivity).
  assert (utf8.RuneCountInString (str "field") = 5) as -> by (vm_compute; reflexivity).
  assert (findAlternateNameWordStartIndex (List.map b2z (str "Springfield")) 6 = Ok 0) as ->
    by (vm_compute; reflexivity).
  assert (findAlternateNameWordEndIndex (List.map b2z (str "Springfield")) (6 + 5) = Ok 11) as ->
    by (vm_compute; reflexivity).
  simpl mbind.
  change (length (List.map b2z (str "Springfield"))) with 11%nat.
  destruct (runeSliceSpare 11) as [|spare]; [vm_compute; reflexivity|].
  rewrite slice_within by (unfold len; simpl length; lia).
  vm_compute. reflexivity.
Qed.

(** C3, as amended.  When the scan of the records gives a suggestion or
    none for each record, [perRecord], and no suggestion has a NaN score, the
    suggestions returned are those of [perRecord], sorted by score in
    descending order, and the suggestions of any one score keep the order of
    their records. *)
Theorem C3_ranked_descending_stable (repository : cityRepository) (query : cityQuery)
    (perRecord : list (option match_)) :
  name query <> [] ->
  mapM (suggestionOf {| name := strings.ToLower (name query);
                        latitude := latitude query;
                        longitude := longitude query |})
       (records repository) = Ok perRecord ->
  Forall (fun m => f32.is_nan (Score m) = false) (omap id perRecord) ->
  exists ranked,
    FindRankedSuggestionsFor repository query = Ok {| Suggestions := ranked |} /\
    ranked ≡ₚ omap id perRecord /\
    StronglySorted (fun earlier later => f32.geb (Score earlier) (Score later) = true)
                   ranked /\
    forall score,
      List.filter (fun m => f32.eqb (Score m) score) ranked =
      List.filter (fun m => f32.eqb (Score m) score) (omap id perRecord).
Proof.
  intros Hname Hscan Hok.
  unfold FindRankedSuggestionsFor, findSuggestionsFor.
  destruct (decide (name query = [])) as [|_]; [done|].
  rewrite scanRecords_mapM, Hscan. simpl. eexists. split; [reflexivity|].
  unfold sort.SliceStable.
  set (less := fun i j : match_ => f32.gtb (Score i) (Score j)).
  set (ok := fun m : match_ => f32.is_nan (Score m) = false).
  destruct (insertionSort_stable less ok) with (data := omap id perRecord)
    as (Hperm & Hsorted & Hstable); [| |done|].
  - unfold less, ok. intros x y Hx Hy Hlt. apply gtb_key in Hlt; [|done..].
    apply not_true_is_false. intros Hgt. apply gtb_key in Hgt; [|done..].
    unfold lt3 in *. lia.
  - unfold less, ok. intros x y z Hx Hy Hz Hxy Hyz. apply not_true_is_false. intros Hxz.
    apply gtb_key in Hxz; [|done..].
    apply not_true_iff_false in Hxy, Hyz.
    rewrite gtb_key in Hxy, Hyz by done. unfold lt3 in *. lia.
  - split_and!; [done| |].
    + eapply (StronglySorted_weaken _ _ ok); [|by rewrite Hperm|exact Hsorted].
      unfold less, ok. intros a b Ha Hb Hab. apply geb_key; [done..|].
      apply not_true_iff_false in Hab. by rewrite gtb_key in Hab.
    + intros score. apply Hstable. intros a b Ha Hb. unfold less.
      destruct (f32.is_nan score) eqn:Hs; [by rewrite eqb_nan_r in Ha|].
      destruct (f32.is_nan (Score a)) eqn:Hna; [by rewrite eqb_nan_l in Ha|].
      destruct (f32.is_nan (Score b)) eqn:Hnb; [by rewrite eqb_nan_l in Hb|].
      apply eqb_key in Ha, Hb; [|done..].
      apply not_true_is_false. intros Hgt. apply gtb_key in Hgt; [|done..].
      rewrite Ha, Hb in Hgt. unfold lt3 in Hgt. lia.
Qed.

(** C4.  When the latitude of the query parses, the latitude weight is
    [1 - |queryLatitude - recordLatitude| / 180.0], and otherwise it is
    exactly 1.0; the longitude weight is the same with 360.0.  The
    coordinates of the record are those [fetchLatitude] and [fetchLongitude]
    return. *)
Theorem C4_axis_weights (query : cityQuery) (record : list gostring) :
  exists recordLatitude recordLongitude,
    fetchLatitude record = Ok recordLatitude /\
    fetchLongitude record = Ok recordLongitude /\
    computeLatitudeScoreWeight query record =
      Ok (match ParseFloat (latitude query) with
          | Parsed queryLatitude =>
            f64.sub (f64.of_int 1)
              (f64.div (f64.abs (f64.sub queryLatitude recordLatitude))
                       (f64.of_int 180))
          | ErrRange _ | ErrSyntax => S754_finite false (2 ^ 52) (-52)
          end) /\
    computeLongitudeScoreWeight query record =
      Ok (match ParseFloat (longitude query) with
          | Parsed queryLongitude =>
            f64.sub (f64.of_int 1)
              (f64.div (f64.abs (f64.sub queryLongitude recordLongitude))
                       (f64.of_int 360))
          | ErrRange _ | ErrSyntax => S754_finite false (2 ^ 52) (-52)
          end).
Proof.
  exists (coordinateAt record 4), (coordinateAt record 5).
  rewrite fetchLatitude_total, fetchLongitude_total.
  rewrite computeLatitudeScoreWeight_total, computeLongitudeScoreWeight_total.
  split_and!; [done|done|..].
  - unfold axisWeight. by destruct (ParseFloat (latitude query)).
  - unfold axisWeight. by destruct (ParseFloat (longitude query)).
Qed.


(** C6.  A query with an empty name gets the empty list, whatever its
    latitude and longitude and whatever the records: no record is read, so
    a store whose rows would make a scan panic gives the empty list too. *)
Theorem C6_empty_name (repository : cityRepository) (lat lon : gostring) :
  FindRankedSuggestionsFor repository
    {| name := []; latitude := lat; longitude := lon |}
  = Ok {| Suggestions := [] |}.
Proof.
  unfold FindRankedSuggestionsFor, findSuggestionsFor. simpl name.
  destruct (decide (@nil byte = [])) as [_|Hne]; [|done].
  reflexivity.
Qed.

(** C7.  [matchQueryName] tries the primary name, then the ASCII name, then
    the alternate names, and the first that contains the query name decides
    the matched word.  When the primary name matches, the result does not
    depend on the other two fields, which need not exist; the ASCII name and
    the alternate names are read only when the fields before them do not
    match.  A record whose primary and ASCII names do not contain the query
    name can match by its alternate names. *)
Theorem C7_first_matching_field (record : list gostring) (query : cityQuery) :
  matchQueryName record query =
  (if strings.Contains (strings.ToLower (fieldOrDash record 1)) (name query)
   then Ok (true, f32.of_f64 (scoreOf query (fieldOrDash record 1) record))
   else
     match record !! 2%nat with
     | None => Panic IndexOutOfRange
     | Some asciiName =>
       if strings.Contains (strings.ToLower asciiName) (name query)
       then Ok (true, f32.of_f64 (scoreOf query asciiName record))
       else
         match record !! 3%nat with
         | None => Panic IndexOutOfRange
         | Some alternateNames =>
           if strings.Contains (strings.ToLower alternateNames) (name query)
           then
             matchedWholeWord ←
               findMatchingAlternateNameWholeWord alternateNames (name query);
             Ok (true, f32.of_f64 (scoreOf query matchedWholeWord record))
           else Ok (false, f32.of_f64 f64.zero)
         end
     end) /\
  (forall lat lon,
     let chicago := [str "4887398"; str "Chicago"; str "Chicago";
                     str "Windy City,Chi-Town"] in
     let windy := {| name := str "windy"; latitude := lat; longitude := lon |} in
     matchQueryName chicago windy
     = Ok (true, f32.of_f64 (scoreOf windy (str "Windy City") chicago))).
Proof.
  split; [apply matchQueryName_cases|].
  intros lat lon chicago windy. rewrite matchQueryName_cases.
  assert (strings.Contains (strings.ToLower (fieldOrDash chicago 1)) (name windy) = false)
    as -> by (vm_compute; reflexivity).
  simpl lookup. cbv iota beta.
  assert (strings.Contains (strings.ToLower (str "Chicago")) (name windy) = false)
    as -> by (vm_compute; reflexivity).
  assert (strings.Contains (strings.ToLower (str "Windy City,Chi-Town")) (name windy) = true)
    as -> by (vm_compute; reflexivity).
  assert (findMatchingAlternateNameWholeWord (str "Windy City,Chi-Town") (name windy)
          = Ok (str "Windy City")) as ->; [|done].
  unfold findMatchingAlternateNameWholeWord.
  assert (strings.Index (strings.ToLower (str "Windy City,Chi-Town")) (name windy) = 0) as ->
    by (vm_compute; reflexivity).
  assert (utf8.runes (str "Windy City,Chi-Town") = List.map b2z (str "Windy City,Chi-Town")) as ->
    by (vm_compute; reflexivity).
  assert (utf8.RuneCountInString (name windy) = 5) as -> by (vm_compute; reflexivity).
  assert (findAlternateNameWordStartIndex (List.map b2z (str "Windy City,Chi-Town")) 0 = Ok 0) as ->
    by (vm_compute; reflexivity).
  assert (findAlternateNameWordEndIndex (List.map b2z (str "Windy City,Chi-Town")) (0 + 5) = Ok 9) as ->
    by (vm_compute; reflexivity).
  simpl mbind.
  rewrite slice_within by (unfold len; simpl length; lia).
  vm_compute. reflexivity.
Qed.

(** C8.  Matching ignores letter case: [findSuggestionsFor] lower-cases the
    query name and [matchQueryName] compares it with the lower-cased fields.
    So a record matches whenever its primary name has a part that differs
    from the query name by letter case only, that is, a part with the same
    lower-casing that starts and ends between characters (the text before it
    and the part itself are well-formed UTF-8). *)
Theorem C8_case_insensitive (record : list gostring) (query : cityQuery)
    (pre sub post : gostring) :
  name query <> [] ->
  fetchCityNameOf record = Ok (pre ++ sub ++ post) ->
  utf8.ValidString pre = true ->
  utf8.ValidString sub = true ->
  strings.ToLower (name query) = strings.ToLower sub ->
  exists score,
    matchQueryName record {| name := strings.ToLower (name query);
                             latitude := latitude query;
                             longitude := longitude query |} = Ok (true, score) /\
    findSuggestionsFor {| records := [record] |} query
    = Ok {| Suggestions := [suggestionFor record score] |}.
Proof.
  intros Hname Hfield Hpre Hsub Hfold.
  rewrite fetchCityNameOf_total in Hfield. injection Hfield as Hfield.
  set (lowered := {| name := strings.ToLower (name query);
                     latitude := latitude query; longitude := longitude query |}).
  assert (matchQueryName record lowered
          = Ok (true, f32.of_f64 (scoreOf lowered (fieldOrDash record 1) record)))
    as Hmatch.
  { rewrite matchQueryName_cases. rewrite Hfield at 1.
    rewrite ToLower_app, (ToLower_app sub post) by done.
    cbn [name lowered]. rewrite Hfold. by rewrite Contains_app. }
  eexists. split; [exact Hmatch|].
  unfold findSuggestionsFor.
  destruct (decide (name query = [])) as [|_]; [done|].
  cbn [records scanRecords]. fold lowered.
  rewrite suggestionOf_cases, Hmatch. reflexivity.
Qed.

(** C9.  A store that holds exactly the record of Paris, asked for "paris"
    with no latitude and no longitude, returns one suggestion, named
    "Paris, A8, FR", with score 1.0.  The fields of the row that the engine
    does not read are arbitrary. *)
Theorem C9_paris_scenario (f0 f6 f7 f9 : gostring) (more : list gostring) :
  FindRankedSuggestionsFor
    {| records := [ [f0; str "Paris"; str "Paris"; str ""; str "48.8566";
                     str "2.3522"; f6; f7; str "FR"; f9; str "A8"] ++ more ] |}
    {| name := str "paris"; latitude := str ""; longitude := str "" |}
  = Ok {| Suggestions :=
            [ {| Name := str "Paris, A8, FR";
                 Latitude := parse_value (ParseFloat (str "48.8566"));
                 Longitude := parse_value (ParseFloat (str "2.3522"));
                 Score := S754_finite false (2 ^ 23) (-23) |} ] |}.
Proof.
  unfold FindRankedSuggestionsFor, findSuggestionsFor. simpl name.
  destruct (decide (str "paris" = [])) as [|_]; [done|].
  cbn [records scanRecords latitude longitude].
  rewrite suggestionOf_cases, matchQueryName_cases. cbn [name].
  assert (strings.ToLower (str "paris") = str "paris") as -> by (vm_compute; reflexivity).
  change (fieldOrDash _ 1) with (str "Paris").
  assert (strings.Contains (strings.ToLower (str "Paris")) (str "paris") = true) as ->
    by (vm_compute; reflexivity).
  unfold scoreOf. cbn [name latitude longitude].
  change (str "") with (@nil byte). rewrite ParseFloat_empty. unfold axisWeight.
  assert (f32.of_f64 (f64.mul (f64.mul (computeMatchingCharWeight (str "paris") (str "Paris"))
                                       f64.one) f64.one)
          = S754_finite false (2 ^ 23) (-23)) as -> by (vm_compute; reflexivity).
  reflexivity.
Qed.

(** C10, as amended.  When the latitude of the query parses and the latitude
    of the record is absent or is not a well-formed number, the weight is
    computed against 0.0: [1 - |queryLatitude - 0.0| / 180.0], and likewise
    for the longitude with 360.0.  A latitude of the record that is well
    formed but too large for a [float64] is an infinity, not 0.0. *)
Theorem C10_unreadable_record_coordinate (query : cityQuery) (record : list gostring) :
  (forall queryLatitude,
     ParseFloat (latitude query) = Parsed queryLatitude ->
     unreadable record 4 ->
     computeLatitudeScoreWeight query record =
     Ok (f64.sub (f64.of_int 1)
           (f64.div (f64.abs (f64.sub queryLatitude (S754_zero false)))
                    (f64.of_int 180)))) /\
  (forall queryLongitude,
     ParseFloat (longitude query) = Parsed queryLongitude ->
     unreadable record 5 ->
     computeLongitudeScoreWeight query record =
     Ok (f64.sub (f64.of_int 1)
           (f64.div (f64.abs (f64.sub queryLongitude (S754_zero false)))
                    (f64.of_int 360)))) /\
  (forall queryLatitude field negative,
     ParseFloat (latitude query) = Parsed queryLatitude ->
     record !! 4%nat = Some field ->
     ParseFloat field = ErrRange negative ->
     computeLatitudeScoreWeight query record =
     Ok (f64.sub (f64.of_int 1)
           (f64.div (f64.abs (f64.sub queryLatitude (S754_infinity negative)))
                    (f64.of_int 180)))) /\
  (forall queryLongitude field negative,
     ParseFloat (longitude query) = Parsed queryLongitude ->
     record !! 5%nat = Some field ->
     ParseFloat field = ErrRange negative ->
     computeLongitudeScoreWeight query record =
     Ok (f64.sub (f64.of_int 1)
           (f64.div (f64.abs (f64.sub queryLongitude (S754_infinity negative)))
                    (f64.of_int 360)))).
Proof.
  rewrite computeLatitudeScoreWeight_total, computeLongitudeScoreWeight_total.
  unfold unreadable, coordinateAt, axisWeight. split_and!.
  - intros q -> Hun. destruct (record !! 4%nat) as [field|]; [|done]. by rewrite Hun.
  - intros q -> Hun. destruct (record !! 5%nat) as [field|]; [|done]. by rewrite Hun.
  - intros q field negative -> -> ->. done.
  - intros q field negative -> -> ->. done.
Qed.

(** ** Further properties *)

(** X1.  Where the extraction of the alias works.  On alternate names of
    ASCII bytes, a match inside an alias that a comma follows gives exactly
    that alias, provided the alias is the first of the field or comes after a
    comma that is not the first byte of the field. *)
Theorem X1_alias_before_comma_extracted (before token after queryName : gostring) (k : nat) :
  let alternateNames := before ++ token ++ "," %byte :: after in
  isASCII alternateNames = true ->
  before = [] \/ (exists pre, pre <> [] /\ before = pre ++ [","%byte]) ->
  Forall (fun c => c <> ","%byte) token ->
  queryName <> [] ->
  strings.Index (strings.ToLower alternateNames) queryName = len before + Z.of_nat k ->
  Z.of_nat k + len queryName <= len token ->
  findMatchingAlternateNameWholeWord alternateNames queryName = Ok token.
Proof.
  intros alternateNames Hascii Hbefore Htoken Hquery Hindex Hfit.
  assert (0 < length queryName)%nat as Hlen
    by (destruct queryName; [done|simpl; lia]).
  unfold findMatchingAlternateNameWholeWord. rewrite Hindex.
  assert (isASCII queryName = true) as Hq.
  { apply (Index_ASCII (strings.ToLower alternateNames)).
    - rewrite ToLower_ASCII by done. by apply isASCII_lower.
    - rewrite Hindex. unfold len. lia. }
  rewrite RuneCountInString_ASCII by done.
  rewrite runes_ASCII by done.
  set (R := List.map b2z alternateNames).
  assert (forall j, (length before <= j < length before + length token)%nat ->
                    exists c, R !! j = Some c /\ c <> 44) as Hinside.
  { intros j Hj. subst R alternateNames.
    destruct (lookup_lt_is_Some_2 token (j - length before)) as [c Hc]; [lia|].
    exists (b2z c). split.
    - rewrite list_lookup_fmap, lookup_app_r by lia.
      rewrite lookup_app_l by lia. by rewrite Hc.
    - rewrite Forall_forall in Htoken.
      assert (c <> ","%byte) as Hne by (apply Htoken; by eapply list_elem_of_lookup_2).
      intros Heq. apply Hne. rewrite <- (z2b_b2z c), Heq. done. }
  assert (R !! (length before + length token)%nat = Some 44) as Hcomma.
  { subst R alternateNames.
    rewrite list_lookup_fmap, lookup_app_r by lia.
    rewrite lookup_app_r by lia.
    replace (length before + length token - length before - length token)%nat
      with 0%nat by lia. done. }
  assert (findAlternateNameWordStartIndex R (len before + Z.of_nat k) = Ok (len before))
    as ->.
  { unfold findAlternateNameWordStartIndex, len.
    destruct (Z.gtb_spec (Z.of_nat (length before) + Z.of_nat k) 0) as [Hpos|Hzero].
    - replace (Z.to_nat (Z.of_nat (length before) + Z.of_nat k))
        with (length before + k)%nat by lia.
      destruct Hbefore as [->|(pre & Hpre & ->)].
      + rewrite (wordStartLoop_found R _ 0); [done|simpl; lia| |by left].
        intros j Hj. apply Hinside. simpl in *. unfold len in Hfit. lia.
      + rewrite (wordStartLoop_found R _ (length pre)).
        * rewrite decide_False by (by destruct pre).
          rewrite length_app. simpl. f_equal. lia.
        * rewrite length_app. lia.
        * intros j Hj. apply Hinside. rewrite length_app in *. simpl in *.
          unfold len in Hfit. lia.
        * right. subst R alternateNames.
          rewrite list_lookup_fmap, lookup_app_l by (rewrite length_app; simpl; lia).
          rewrite lookup_app_r by lia. by rewrite Nat.sub_diag.
    - f_equal. lia. }
  simpl mbind.
  assert (findAlternateNameWordEndIndex R (len before + Z.of_nat k + len queryName)
          = Ok (len before + len token - 1)) as ->.
  { unfold findAlternateNameWordEndIndex, len in *.
    replace (Z.of_nat (length before) + Z.of_nat k + Z.of_nat (length queryName))
      with (Z.of_nat (length before + k + length queryName)) by lia.
    rewrite (wordEndLoop_found R _ _ (length before + length token)); [f_equal; lia|lia| | |done].
    - subst R alternateNames. rewrite length_map, !length_app. simpl. lia.
    - intros j Hj. apply Hinside. lia. }
  simpl mbind.
  rewrite slice_within.
  2:{ unfold len. lia. }
  2:{ subst R alternateNames. unfold len. rewrite length_map, !length_app. simpl. lia. }
  simpl. f_equal.
  replace (Z.to_nat (len before + len token - 1 + 1 - len before)) with (length token)
    by (unfold len; lia).
  replace (Z.to_nat (len before)) with (length before) by (unfold len; lia).
  subst R alternateNames. rewrite !map_app.
  rewrite <- !app_assoc.
  rewrite drop_app_length' by (by rewrite length_map).
  rewrite take_app_length' by (by rewrite length_map).
  apply string_of_runes_ASCII.
  rewrite !isASCII_app in Hascii.
  by destruct (isASCII before), (isASCII token).
Qed.

(** X2.  The ranking has no freedom left.  When no score is NaN, a
    rearrangement of the suggestions found that is in descending order of
    score, and keeps the suggestions of every one score in the order they
    were found, is the list [sort.SliceStable] returns. *)
Theorem X2_ranking_unique (found ranked : list match_) :
  Forall (fun m => f32.is_nan (Score m) = false) found ->
  ranked ≡ₚ found ->
  StronglySorted (fun earlier later => f32.geb (Score earlier) (Score later) = true)
                 ranked ->
  (forall score,
     List.filter (fun m => f32.eqb (Score m) score) ranked =
     List.filter (fun m => f32.eqb (Score m) score) found) ->
  ranked = sort.SliceStable (fun i j => f32.gtb (Score i) (Score j)) found.
Proof.
  intros Hok Hperm Hsorted Hstable.
  set (less := fun i j : match_ => f32.gtb (Score i) (Score j)).
  set (ok := fun m : match_ => f32.is_nan (Score m) = false).
  destruct (insertionSort_stable less ok) with (data := found)
    as (Hperm' & Hsorted' & Hstable'); [| |done|].
  { unfold less, ok. intros x y Hx Hy Hlt. apply gtb_key in Hlt; [|done..].
    apply not_true_is_false. intros Hgt. apply gtb_key in Hgt; [|done..].
    unfold lt3 in *. lia. }
  { unfold less, ok. intros x y z Hx Hy Hz Hxy Hyz. apply not_true_is_false.
    intros Hxz. apply gtb_key in Hxz; [|done..].
    apply not_true_iff_false in Hxy, Hyz.
    rewrite gtb_key in Hxy, Hyz by done. unfold lt3 in *. lia. }
  unfold sort.SliceStable.
  apply (stable_sorted_unique Score); [by rewrite Hperm|by rewrite Hperm, Hperm'|done| |].
  - eapply (StronglySorted_weaken _ _ ok); [|by rewrite Hperm'|exact Hsorted'].
    unfold less, ok. intros a b Ha Hb Hab. apply geb_key; [done..|].
    apply not_true_iff_false in Hab. by rewrite gtb_key in Hab.
  - intros score. rewrite Hstable. symmetry. apply Hstable'.
    intros a b Ha Hb. unfold less.
    destruct (f32.is_nan score) eqn:Hs; [by rewrite eqb_nan_r in Ha|].
    destruct (f32.is_nan (Score a)) eqn:Hna; [by rewrite eqb_nan_l in Ha|].
    destruct (f32.is_nan (Score b)) eqn:Hnb; [by rewrite eqb_nan_l in Hb|].
    apply eqb_key in Ha, Hb; [|done..].
    apply not_true_is_false. intros Hgt. apply gtb_key in Hgt; [|done..].
    rewrite Ha, Hb in Hgt. unfold lt3 in Hgt. lia.
Qed.

(** X3.  The five accessors never panic: each returns the field of its
    column when the row is long enough, and otherwise its default, "-" for
    the names and 0.0 for the coordinates; a coordinate that is not a
    well-formed number reads as 0.0 too. *)
Theorem X3_accessors_default (record : list gostring) :
  fetchCityNameOf record = Ok (default (str "-") (record !! 1%nat)) /\
  fetchCountryNameOf record = Ok (default (str "-") (record !! 8%nat)) /\
  fetchFirstAdministrationLevelOf record = Ok (default (str "-") (record !! 10%nat)) /\
  fetchLatitude record =
    Ok (match record !! 4%nat with
        | None => S754_zero false
        | Some field =>
          match ParseFloat field with
          | Parsed value => value
          | ErrRange negative => S754_infinity negative
          | ErrSyntax => S754_zero false
          end
        end) /\
  fetchLongitude record =
    Ok (match record !! 5%nat with
        | None => S754_zero false
        | Some field =>
          match ParseFloat field with
          | Parsed value => value
          | ErrRange negative => S754_infinity negative
          | ErrSyntax => S754_zero false
          end
        end).
Proof.
  rewrite fetchCityNameOf_total, fetchCountryNameOf_total,
    fetchFirstAdministrationLevelOf_total, fetchLatitude_total, fetchLongitude_total.
  unfold coordinateAt, fieldOrDash, parse_value, f64.zero. by split_and!.
Qed.

(** X4.  The engine reads the columns 1, 2, 3, 4, 5, 8 and 10 of a row and
    nothing else: two stores whose rows agree, one by one, on these columns
    (a field present in both and equal, or absent in both) get the same
    answer to every query, a panic included. *)
Theorem X4_unread_columns (rows rows' : list (list gostring)) (query : cityQuery) :
  Forall2 sameReadColumns rows rows' ->
  FindRankedSuggestionsFor {| records := rows |} query =
  FindRankedSuggestionsFor {| records := rows' |} query.
Proof.
  intros Hrows. unfold FindRankedSuggestionsFor.
  destruct (decide (name query = [])) as [Hempty|Hname].
  { unfold findSuggestionsFor. by rewrite !decide_True. }
  rewrite !findSuggestionsFor_mapM by done. cbn [records].
  assert (mapM (suggestionOf (lowered query)) rows
          = mapM (suggestionOf (lowered query)) rows') as ->; [|done].
  induction Hrows as [|record record' rows rows' Hsame _ IH]; [done|].
  simpl. by rewrite (suggestionOf_frame _ record record'), IH.
Qed.

(** X5.  What the scan keeps.  For a non-empty name, when [findSuggestionsFor]
    returns, its suggestions are, in the order of the store, those of exactly
    the records one of whose three name fields contains the lower-cased
    name: each has the display name and the coordinates of its record. *)
Theorem X5_suggestions_of_matching_records (repository : cityRepository)
    (query : cityQuery) (found : suggestions) :
  name query <> [] ->
  findSuggestionsFor repository query = Ok found ->
  Forall2 (fun m record =>
             Name m = Sprintf3 (fieldOrDash record 1) (fieldOrDash record 10)
                               (fieldOrDash record 8) /\
             Latitude m = coordinateAt record 4 /\
             Longitude m = coordinateAt record 5)
          (Suggestions found)
          (List.filter (recordMatches (strings.ToLower (name query)))
                       (records repository)).
Proof.
  intros Hname. rewrite findSuggestionsFor_mapM by done.
  destruct (mapM _ _) as [perRecord|] eqn:Hscan; [|done].
  simpl. intros [= <-]. simpl.
  revert perRecord Hscan.
  induction (records repository) as [|record rows IH]; intros perRecord Hscan.
  - simpl in Hscan. injection Hscan as <-. constructor.
  - simpl in Hscan.
    destruct (suggestionOf (lowered query) record) as [o|] eqn:Ho; [|done].
    destruct (mapM _ rows) as [rest|]; [|done].
    simpl in Hscan. injection Hscan as <-.
    apply suggestionOf_Ok in Ho as [[Hm (score & ->)]|[Hm ->]];
      cbn [name lowered] in Hm; simpl; rewrite Hm.
    + constructor; [done|]. by apply IH.
    + by apply IH.
Qed.

(** X6.  The suggestions of a store made of two parts, before the ranking,
    are those of the first part followed by those of the second; the scan
    panics when the scan of either part does. *)
Theorem X6_store_concatenation (rows rows' : list (list gostring)) (query : cityQuery) :
  findSuggestionsFor {| records := rows ++ rows' |} query =
  first ← findSuggestionsFor {| records := rows |} query;
  second ← findSuggestionsFor {| records := rows' |} query;
  Ok {| Suggestions := Suggestions first ++ Suggestions second |}.
Proof.
  destruct (decide (name query = [])) as [Hempty|Hname].
  { unfold findSuggestionsFor. by rewrite !decide_True. }
  rewrite !findSuggestionsFor_mapM by done. cbn [records].
  rewrite mapM_result_app.
  destruct (mapM _ rows) as [a|]; simpl; [|done].
  destruct (mapM _ rows') as [b|]; simpl; [|done].
  by rewrite omap_app.
Qed.


(** X8.  The last alias.  On alternate names of ASCII bytes, when the match
    lies in the last alias of the field (no comma follows it), the word is
    cut one rune past the end of the field: [findMatchingAlternateNameWholeWord]
    panics when the rune slice has no spare capacity, and otherwise returns
    the alias followed by a zero byte. *)
Theorem X8_last_alias (before token queryName : gostring) (k : nat) :
  let alternateNames := before ++ token in
  isASCII alternateNames = true ->
  before = [] \/ (exists pre, pre <> [] /\ before = pre ++ [","%byte]) ->
  Forall (fun c => c <> ","%byte) token ->
  queryName <> [] ->
  strings.Index (strings.ToLower alternateNames) queryName = len before + Z.of_nat k ->
  Z.of_nat k + len queryName <= len token ->
  findMatchingAlternateNameWholeWord alternateNames queryName =
  match runeSliceSpare (length alternateNames) with
  | O => Panic SliceBoundsOutOfRange
  | S _ => Ok (token ++ [x00])
  end.
Proof.
  intros alternateNames Hascii Hbefore Htoken Hquery Hindex Hfit.
  assert (0 < length queryName)%nat as Hlen
    by (destruct queryName; [done|simpl; lia]).
  unfold findMatchingAlternateNameWholeWord. rewrite Hindex.
  assert (isASCII queryName = true) as Hq.
  { apply (Index_ASCII (strings.ToLower alternateNames)).
    - rewrite ToLower_ASCII by done. by apply isASCII_lower.
    - rewrite Hindex. unfold len. lia. }
  rewrite RuneCountInString_ASCII, runes_ASCII by done.
  set (R := List.map b2z alternateNames).
  assert (length R = (length before + length token)%nat) as HR
    by (unfold R, alternateNames; by rewrite length_map, length_app).
  assert (forall j, (length before <= j < length before + length token)%nat ->
                    exists c, R !! j = Some c /\ c <> 44) as Hinside.
  { intros j Hj. unfold R, alternateNames.
    rewrite <- (app_nil_r token). by apply alias_runes. }
  unfold len in *.
  rewrite start_of_alias.
  2:{ intros j Hj. apply Hinside. unfold rune in *. lia. }
  2:{ destruct Hbefore as [->|(pre & Hpre & ->)]; [left; simpl; lia|].
      right. unfold R, alternateNames.
      rewrite length_app. simpl length.
      replace (length pre + 1 - 1)%nat with (length pre) by lia.
      rewrite list_lookup_fmap, <- !app_assoc, lookup_app_r by lia.
      by rewrite Nat.sub_diag. }
  assert ((if decide (length before <= 1)%nat then 0 else Z.of_nat (length before))
          = Z.of_nat (length before)) as ->.
  { destruct Hbefore as [->|(pre & Hpre & ->)]; [done|].
    rewrite decide_False; [done|]. rewrite length_app. simpl.
    destruct pre; [done|simpl; lia]. }
  simpl mbind.
  assert (findAlternateNameWordEndIndex R
            (Z.of_nat (length before) + Z.of_nat k + Z.of_nat (length queryName))
          = Ok (len R)) as ->.
  { unfold findAlternateNameWordEndIndex.
    replace (Z.of_nat (length before) + Z.of_nat k + Z.of_nat (length queryName))
      with (Z.of_nat (length before + k + length queryName)) by lia.
    apply wordEndLoop_end; [unfold rune in *; lia|unfold len, rune in *; lia|].
    intros j Hj. apply Hinside. unfold rune in *. lia. }
  simpl mbind. unfold len. unfold rune in *.
  assert (length R = length alternateNames) as HRR by (unfold R; by rewrite length_map).
  rewrite HRR.
  destruct (runeSliceSpare (length alternateNames)) as [|spare].
  - rewrite slice_beyond; [done|]. unfold len, rune. rewrite HRR. lia.
  - rewrite slice_within.
    2:{ unfold alternateNames. rewrite length_app. lia. }
    2:{ unfold len, rune. rewrite HRR. lia. }
    simpl mbind. unfold mret, result_ret. f_equal.
    replace (Z.to_nat (Z.of_nat (length alternateNames) + 1 - Z.of_nat (length before)))
      with (length token + 1)%nat
      by (unfold alternateNames; rewrite length_app; lia).
    rewrite Nat2Z.id.
    unfold R, alternateNames. rewrite map_app, <- app_assoc.
    rewrite drop_app_length' by (by rewrite length_map).
    simpl replicate.
    replace (List.map b2z token ++ 0 :: replicate spare 0)
      with ((List.map b2z token ++ [0]) ++ replicate spare 0)
      by (by rewrite <- app_assoc).
    rewrite take_app_length' by (rewrite length_app, length_map; simpl; lia).
    rewrite string_of_runes_app, string_of_runes_ASCII; [done|].
    unfold alternateNames in Hascii. rewrite isASCII_app in Hascii.
    by destruct (isASCII before), (isASCII token).
Qed.

(** X9.  The leading comma.  On alternate names of ASCII bytes that start
    with a comma, a match inside the alias that follows it gives a word that
    starts with that comma: the scan to the left stops at index 0 without
    reading the rune there. *)
Theorem X9_leading_comma (token after queryName : gostring) (k : nat) :
  let alternateNames := [","%byte] ++ token ++ ","%byte :: after in
  isASCII alternateNames = true ->
  Forall (fun c => c <> ","%byte) token ->
  queryName <> [] ->
  strings.Index (strings.ToLower alternateNames) queryName = 1 + Z.of_nat k ->
  Z.of_nat k + len queryName <= len token ->
  findMatchingAlternateNameWholeWord alternateNames queryName
  = Ok (","%byte :: token).
Proof.
  intros alternateNames Hascii Htoken Hquery Hindex Hfit.
  assert (0 < length queryName)%nat as Hlen
    by (destruct queryName; [done|simpl; lia]).
  unfold findMatchingAlternateNameWholeWord. rewrite Hindex.
  assert (isASCII queryName = true) as Hq.
  { apply (Index_ASCII (strings.ToLower alternateNames)).
    - rewrite ToLower_ASCII by done. by apply isASCII_lower.
    - rewrite Hindex. lia. }
  rewrite RuneCountInString_ASCII, runes_ASCII by done.
  set (R := List.map b2z alternateNames).
  assert (forall j, (1 <= j < 1 + length token)%nat ->
                    exists c, R !! j = Some c /\ c <> 44) as Hinside.
  { intros j Hj. unfold R, alternateNames. by apply alias_runes. }
  assert (R !! (1 + length token)%nat = Some 44) as Hcomma.
  { unfold R, alternateNames.
    rewrite list_lookup_fmap, lookup_app_r by (simpl; lia).
    rewrite lookup_app_r by (simpl; lia).
    replace (1 + length token - length [","%byte] - length token)%nat
      with 0%nat by (simpl; lia). done. }
  unfold len in *.
  replace (1 + Z.of_nat k) with (Z.of_nat 1 + Z.of_nat k) by lia.
  rewrite start_of_alias.
  2:{ intros j Hj. apply Hinside. unfold rune in *. lia. }
  2:{ left. lia. }
  rewrite decide_True by lia. simpl mbind.
  assert (findAlternateNameWordEndIndex R
            (Z.of_nat 1 + Z.of_nat k + Z.of_nat (length queryName))
          = Ok (Z.of_nat (length token))) as ->.
  { unfold findAlternateNameWordEndIndex.
    replace (Z.of_nat 1 + Z.of_nat k + Z.of_nat (length queryName))
      with (Z.of_nat (1 + k + length queryName)) by lia.
    rewrite (wordEndLoop_found R _ _ (1 + length token)); [f_equal; lia|lia| | |done].
    - unfold len, R, alternateNames. rewrite length_map, !length_app. simpl. lia.
    - intros j Hj. apply Hinside. unfold rune in *. lia. }
  simpl mbind.
  rewrite slice_within.
  2:{ lia. }
  2:{ unfold len, R, alternateNames. rewrite length_map, !length_app. simpl. lia. }
  simpl mbind. unfold mret, result_ret. f_equal.
  replace (Z.to_nat (Z.of_nat (length token) + 1 - 0)) with (S (length token)) by lia.
  cbn [take]. rewrite map_app, <- app_assoc.
  rewrite take_app_length' by (by rewrite length_map).
  change (b2z ","%byte :: List.map b2z token) with (List.map b2z (","%byte :: token)).
  apply string_of_runes_ASCII.
  unfold alternateNames in Hascii.
  change ([","%byte] ++ token ++ ","%byte :: after)
    with ((","%byte :: token) ++ ","%byte :: after) in Hascii.
  rewrite isASCII_app in Hascii. by destruct (isASCII (","%byte :: token)).
Qed.


(** X11.  No penalty at the hint.  When the latitude of the query parses to
    a finite number and the latitude field of the record parses to the same
    number, the latitude weight is exactly 1.0; likewise for the longitude. *)
Theorem X11_weight_at_hint (query : cityQuery) (record : list gostring) :
  (forall field hint,
     ParseFloat (latitude query) = Parsed hint ->
     record !! 4%nat = Some field -> ParseFloat field = Parsed hint ->
     isFinite hint = true ->
     computeLatitudeScoreWeight query record = Ok (S754_finite false (2 ^ 52) (-52))) /\
  (forall field hint,
     ParseFloat (longitude query) = Parsed hint ->
     record !! 5%nat = Some field -> ParseFloat field = Parsed hint ->
     isFinite hint = true ->
     computeLongitudeScoreWeight query record = Ok (S754_finite false (2 ^ 52) (-52))).
Proof.
  rewrite computeLatitudeScoreWeight_total, computeLongitudeScoreWeight_total.
  unfold coordinateAt. split; intros field hint -> -> -> Hfin; cbn [parse_value];
    rewrite axisWeight_same; auto.
Qed.

(** X12.  A request without a name.  When the request has no parameter [q],
    or its first value is empty, the handler answers with the empty list,
    whatever the other parameters and the store. *)
Theorem X12_request_without_name (repository : cityRepository) (queryValues : Values) :
  queryValues !! "q"%string = None \/
  (exists others, queryValues !! "q"%string = Some ([] :: others)) \/
  queryValues !! "q"%string = Some [] ->
  suggestionsHandler repository queryValues = Ok {| Suggestions := [] |}.
Proof.
  intros Hq. unfold suggestionsHandler, FindRankedSuggestionsFor, findSuggestionsFor.
  assert (name (parseCityQuery queryValues) = []) as Hname.
  { unfold parseCityQuery, Get. cbn [name]. unfold Values, gostring in *.
    destruct Hq as [Hq|[(others & Hq)|Hq]]; by rewrite Hq. }
  rewrite decide_True by done. reflexivity.
Qed.

End Claims.

(** * The claims at concrete inputs, on the reference run time *)

(** A 1-field row: on the query "a" the scan panics. *)
Lemma C1_short_row_panics_witness :
  FindRankedSuggestionsFor {| records := [[str "5881791"]] |}
    {| name := str "a"; latitude := []; longitude := [] |}
  = Panic IndexOutOfRange.
Proof.
  apply C1_short_row_panics; [simpl; lia|done|reflexivity].
Defined.

(** The byte index of the match is used as an index of runes: after a
    two-byte character the word found starts and ends one rune late, and here
    it spans two aliases. *)
Example byte_index_as_rune_index :
  findMatchingAlternateNameWholeWord (str "é,ab,cd,ef") (str "ab") = Ok (str "ab,cd").
Proof. vm_compute. reflexivity. Qed.

(** Three matches of "london", two of them with the same score: the best
    comes first and the other two keep the order of their records. *)
Lemma C3_ranked_descending_stable_witness :
  let query := {| name := str "london"; latitude := []; longitude := [] |} in
  exists perRecord,
    mapM (suggestionOf {| name := strings.ToLower (name query);
                          latitude := latitude query;
                          longitude := longitude query |})
         (records londonStore) = Ok perRecord /\
    exists ranked,
      FindRankedSuggestionsFor londonStore query = Ok {| Suggestions := ranked |} /\
      List.map Name ranked = [str "London, 08, CA"; str "Londonderry, NIR, GB";
                              str "Londontowne, MD, US"] /\
      ranked ≡ₚ omap id perRecord /\
      StronglySorted (fun earlier later => f32.geb (Score earlier) (Score later) = true)
                     ranked /\
      forall score,
        List.filter (fun m => f32.eqb (Score m) score) ranked =
        List.filter (fun m => f32.eqb (Score m) score) (omap id perRecord).
Proof.
  intros query. eexists. split; [vm_compute; reflexivity|].
  edestruct (C3_ranked_descending_stable londonStore query) as (ranked & Hranked & Hrest);
    [done|vm_compute; reflexivity|repeat constructor|].
  exists ranked. split; [exact Hranked|]. split; [|exact Hrest].
  vm_compute in Hranked. injection Hranked as <-. reflexivity.
Defined.

(** With a NaN among the scores the list is not in descending order: the
    third suggestion has a greater score than the first. *)
Lemma C3_nan_breaks_order :
  exists m1 m2 m3,
    FindRankedSuggestionsFor nanStore
      {| name := str "a"; latitude := str "0"; longitude := [] |}
    = Ok {| Suggestions := [m1; m2; m3] |} /\
    Name m1 = str "Ab, 01, AA" /\ Score m1 = S754_finite false (2 ^ 23) (-24) /\
    Name m2 = str "A, 02, AA" /\ Score m2 = S754_nan /\
    Name m3 = str "A, 03, AA" /\ Score m3 = S754_finite false (2 ^ 23) (-23) /\
    f32.gtb (Score m3) (Score m1) = true /\
    f32.geb (Score m1) (Score m3) = false.
Proof.
  do 3 eexists. split; [vm_compute; reflexivity|]. by vm_compute.
Qed.



(** "PARIS" matches the record named "Paris". *)
Lemma C8_case_insensitive_witness :
  let query := {| name := str "PARIS"; latitude := []; longitude := [] |} in
  exists score,
    matchQueryName parisRecord {| name := strings.ToLower (name query);
                                  latitude := latitude query;
                                  longitude := longitude query |} = Ok (true, score) /\
    findSuggestionsFor {| records := [parisRecord] |} query
    = Ok {| Suggestions := [suggestionFor parisRecord score] |}.
Proof.
  intros query.
  apply (C8_case_insensitive parisRecord query [] (str "Paris") []);
    [done|reflexivity|reflexivity|reflexivity|reflexivity].
Defined.

(** A record whose latitude is not a number, for a query at latitude 10. *)
Lemma C10_unreadable_record_coordinate_witness :
  let record := row "1" "Nowhere" "Nowhere" "" "north" "east" "AA" "01" in
  let query := {| name := str "now"; latitude := str "10"; longitude := [] |} in
  computeLatitudeScoreWeight query record =
  Ok (f64.sub (f64.of_int 1)
        (f64.div (f64.abs (f64.sub (f64.of_int 10) (S754_zero false)))
                 (f64.of_int 180))).
Proof.
  intros record query.
  apply (proj1 (C10_unreadable_record_coordinate query record));
    [reflexivity|reflexivity].
Defined.

(** A record whose latitude is well formed and out of range: the query's
    latitude parses, the record's does not, and the weight is computed
    against an infinity, not against 0.0. *)
Lemma C10_out_of_range_latitude :
  let record := row "1" "Nowhere" "Nowhere" "" "1e999" "0" "AA" "01" in
  let query := {| name := str "now"; latitude := str "10"; longitude := [] |} in
  parse_ok (ParseFloat (latitude query)) = true /\
  parse_ok (ParseFloat (str "1e999")) = false /\
  computeLatitudeScoreWeight query record = Ok (S754_infinity true) /\
  f64.sub (f64.of_int 1)
    (f64.div (f64.abs (f64.sub (f64.of_int 10) (S754_zero false))) (f64.of_int 180))
  = S754_finite false 8506799296144270 (-53).
Proof. by vm_compute. Qed.

(** The example of the alternate names "Springfield,Springfield Town,New
    Springfield" with the query "field": the word is "Springfield". *)
Lemma X1_alias_before_comma_extracted_witness :
  findMatchingAlternateNameWholeWord
    (str "Springfield,Springfield Town,New Springfield") (str "field")
  = Ok (str "Springfield").
Proof.
  apply (X1_alias_before_comma_extracted
           [] (str "Springfield") (str "Springfield Town,New Springfield")
           (str "field") 6);
    [reflexivity|by left|repeat constructor; done|done|reflexivity|by vm_compute].
Defined.

(** Two suggestions found in ascending order of score: the only ranking is
    the other way round. *)
Lemma X2_ranking_unique_witness :
  let low := {| Name := str "Londonderry, NIR, GB"; Latitude := f64.zero;
                Longitude := f64.zero; Score := S754_finite false (2 ^ 23) (-24) |} in
  let high := {| Name := str "London, 08, CA"; Latitude := f64.zero;
                 Longitude := f64.zero; Score := S754_finite false (2 ^ 23) (-23) |} in
  [high; low] = sort.SliceStable (fun i j => f32.gtb (Score i) (Score j)) [low; high].
Proof.
  intros low high. apply X2_ranking_unique.
  - by repeat constructor.
  - apply Permutation_swap.
  - by repeat constructor.
  - intros score. simpl.
    destruct (f32.eqb (S754_finite false (2 ^ 23) (-23)) score) eqn:Hhigh,
             (f32.eqb (S754_finite false (2 ^ 23) (-24)) score) eqn:Hlow; try done.
    exfalso. destruct (f32.is_nan score) eqn:Hnan; [by rewrite eqb_nan_r in Hhigh|].
    apply eqb_key in Hhigh, Hlow; [|done..]. by rewrite <- Hlow in Hhigh.
Defined.

(** Two rows of Paris that differ in the columns 0, 6, 7, 9 and 11. *)
Lemma X4_unread_columns_witness :
  let query := {| name := str "par"; latitude := str "48.8566"; longitude := [] |} in
  FindRankedSuggestionsFor {| records := [parisRecord] |} query =
  FindRankedSuggestionsFor {| records := [parisRecordRenumbered] |} query.
Proof.
  intros query. apply X4_unread_columns.
  repeat constructor.
Defined.

(** The query "london" on the three Londons and Paris: three suggestions,
    for the three rows that match. *)
Lemma X5_suggestions_of_matching_records_witness :
  let query := {| name := str "London"; latitude := []; longitude := [] |} in
  exists found,
    findSuggestionsFor mixedStore query = Ok found /\
    List.map Name (Suggestions found)
      = [str "Londonderry, NIR, GB"; str "London, 08, CA"; str "Londontowne, MD, US"] /\
    Forall2 (fun m record =>
               Name m = Sprintf3 (fieldOrDash record 1) (fieldOrDash record 10)
                                 (fieldOrDash record 8) /\
               Latitude m = coordinateAt record 4 /\
               Longitude m = coordinateAt record 5)
            (Suggestions found)
            (List.filter (recordMatches (strings.ToLower (name query)))
                         (records mixedStore)).
Proof.
  intros query. eexists. split; [vm_compute; reflexivity|]. split; [reflexivity|].
  apply X5_suggestions_of_matching_records; [done|vm_compute; reflexivity].
Defined.

(** The query "new" on "Springfield,New Springfield": the word ends with a
    zero byte. *)
Lemma X8_last_alias_witness :
  findMatchingAlternateNameWholeWord (str "Springfield,New Springfield") (str "new")
  = Ok (str "New Springfield" ++ [x00]).
Proof.
  refine (X8_last_alias (str "Springfield,") (str "New Springfield") (str "new") 0
            _ _ _ _ _ _);
    [reflexivity|right; by exists (str "Springfield")|repeat constructor; done
    |done|reflexivity|by vm_compute].
Defined.

(** The query "field" on ",Springfield,Boston": the word is ",Springfield". *)
Lemma X9_leading_comma_witness :
  findMatchingAlternateNameWholeWord (str ",Springfield,Boston") (str "field")
  = Ok (str ",Springfield").
Proof.
  refine (X9_leading_comma (str "Springfield") (str "Boston") (str "field") 6
            _ _ _ _ _);
    [reflexivity|repeat constructor; done|done|reflexivity|by vm_compute].
Defined.


(** The record of Paris asked for at its own latitude. *)
Lemma X11_weight_at_hint_witness :
  let query := {| name := str "par"; latitude := str "48.8566"; longitude := str "2.3522" |} in
  computeLatitudeScoreWeight query parisRecord = Ok (S754_finite false (2 ^ 52) (-52)) /\
  FindRankedSuggestionsFor {| records := [parisRecord] |} query
  = Ok {| Suggestions :=
            [ {| Name := str "Paris, A8, FR";
                 Latitude := S754_finite false 6875955173580918 (-47);
                 Longitude := S754_finite false 5296683521750440 (-51);
                 Score := S754_finite false 10066330 (-24) |} ] |}.
Proof.
  intros query. split; [|by vm_compute].
  eapply (proj1 (X11_weight_at_hint query parisRecord));
    [vm_compute; reflexivity|reflexivity|vm_compute; reflexivity|reflexivity].
Defined.

(** A request that gives a latitude and no name. *)
Lemma X12_request_without_name_witness :
  suggestionsHandler londonStore {[ "latitude"%string := [str "45.5"] ]}
  = Ok {| Suggestions := [] |}.
Proof.
  apply X12_request_without_name. left. by apply lookup_singleton_ne.
Defined.
